(** * json-schema helpers (packages/json-schema/src/helpers.ts)

    A shallow embedding of the helper module of the JSON Schema validator:
    [childOptions], [isEqual], [flatten], [isUniqueWith], [HasError] and the
    dispatcher [validateSchema], with the properties the specification
    states about them; and of [parseContentType], the content-type parser
    of the HTTP layer (packages/laminar/src/request.ts). *)

From Stdlib Require Import ZArith String Ascii List Bool Lia.
From Stdlib Require Import DecimalString DecimalZ DecimalPos.
From stdpp Require Import base list strings gmap.

Set Warnings "-register-all".

Local Open Scope string_scope.
Local Open Scope list_scope.

(** ** JavaScript values *)

(** Addresses of heap-allocated values.  Two objects, arrays or dates are
    [===] exactly when they are the same allocation. *)
Definition loc := nat.

(** Numbers.  Nothing in this module does arithmetic: all that matters is
    [===] (where [NaN] differs from itself), truthiness and the conversion to
    a string in a template literal.  [Num z] is the double whose value is the
    integer [z], for [z] in the safe range (up to 2^53 either way), where the
    conversion to a string writes every digit; doubles with a fractional
    part, the larger ones and the infinities are left out of the model. *)
Inductive JsNumber :=
| NaN
| Num (z : Z).

(** The values the validator sees: JSON data, [undefined], and [Date]
    instances.  The properties of an object are listed in the order
    [Object.keys] reports them; inherited properties are not modelled. *)
Inductive JsValue :=
| JUndefined
| JNull
| JBool (b : bool)
| JNum (n : JsNumber)
| JStr (s : string)
| JDate (ref : loc) (time : JsNumber)
| JArr (ref : loc) (items : list JsValue)
| JObj (ref : loc) (props : list (string * JsValue)).

Module Js.

(** [x === y] on numbers. *)
Definition numEq (x y : JsNumber) : bool :=
  match x, y with
  | Num a, Num b => Z.eqb a b
  | _, _ => false
  end.

Definition refOf (v : JsValue) : option loc :=
  match v with
  | JDate l _ | JArr l _ | JObj l _ => Some l
  | _ => None
  end.

(** [a === b]: primitives by value, everything else by identity. *)
Definition strictEq (a b : JsValue) : bool :=
  match a, b with
  | JUndefined, JUndefined => true
  | JNull, JNull => true
  | JBool x, JBool y => Bool.eqb x y
  | JNum x, JNum y => numEq x y
  | JStr x, JStr y => String.eqb x y
  | _, _ =>
      match refOf a, refOf b with
      | Some l, Some l' => Nat.eqb l l'
      | _, _ => false
      end
  end.

(** [typeof v === 'object'] (which holds of [null] too). *)
Definition typeofObject (v : JsValue) : bool :=
  match v with
  | JNull | JDate _ _ | JArr _ _ | JObj _ _ => true
  | _ => false
  end.

(** [Array.isArray(v)]. *)
Definition isArray (v : JsValue) : bool :=
  match v with JArr _ _ => true | _ => false end.

(** [v instanceof Date]. *)
Definition instanceofDate (v : JsValue) : bool :=
  match v with JDate _ _ => true | _ => false end.

(** [v.getTime()], called on dates only. *)
Definition getTime (v : JsValue) : JsNumber :=
  match v with JDate _ t => t | _ => NaN end.

(** The elements of an array. *)
Definition elements (v : JsValue) : list JsValue :=
  match v with JArr _ xs => xs | _ => [] end.

(** [v[index]] on an array: [undefined] past the end. *)
Definition at_index (v : JsValue) (index : nat) : JsValue :=
  nth index (elements v) JUndefined.

(** [Object.keys(v)]: the own enumerable keys; a [Date] has none. *)
Definition keys (v : JsValue) : list string :=
  match v with JObj _ ps => map fst ps | _ => [] end.

Fixpoint lookup_prop (key : string) (ps : list (string * JsValue)) : JsValue :=
  match ps with
  | [] => JUndefined
  | (k, v) :: ps' => if String.eqb k key then v else lookup_prop key ps'
  end.

(** [v[key]] for a string key: [undefined] when the key is absent. *)
Definition get (v : JsValue) (key : string) : JsValue :=
  match v with JObj _ ps => lookup_prop key ps | _ => JUndefined end.

(** Truthiness: what [if (v)] and [v && ...] test. *)
Definition truthy (v : JsValue) : bool :=
  match v with
  | JUndefined | JNull => false
  | JBool b => b
  | JNum NaN => false
  | JNum (Num z) => negb (Z.eqb z 0)
  | JStr s => negb (String.eqb s "")
  | JDate _ _ | JArr _ _ | JObj _ _ => true
  end.

(** [Array.prototype.sort()] on strings: ascending in the order of the
    character codes. *)
Fixpoint insert_sorted (s : string) (l : list string) : list string :=
  match l with
  | [] => [s]
  | t :: l' => if String.leb s t then s :: l else t :: insert_sorted s l'
  end.

Definition sort (l : list string) : list string :=
  fold_right insert_sorted [] l.

(** [xs.every((item, index) => f(item, index))], the indices starting at
    [start]. *)
Fixpoint every_from {A} (start : nat) (f : A -> nat -> bool) (xs : list A) : bool :=
  match xs with
  | [] => true
  | x :: xs' => f x start && every_from (S start) f xs'
  end.

Definition every {A} (f : A -> nat -> bool) (xs : list A) : bool :=
  every_from 0 f xs.

(** [String(n)], as a template literal converts a number. *)
Definition numToString (n : JsNumber) : string :=
  match n with
  | NaN => "NaN"
  | Num z => NilZero.string_of_int (Z.to_int z)
  end.

End Js.

(** ** isEqual *)

(** The two arrays [Object.keys(a).sort()] builds are fresh allocations:
    they are compared with each other only, so any two different addresses
    stand for them. *)
Definition aKeysRef : loc := 0.
Definition bKeysRef : loc := 1.

(** [isEqual], with the depth of the recursion bounded by [fuel]. *)
Fixpoint isEqual_fuel (fuel : nat) (a b : JsValue) : bool :=
  match fuel with
  | O => false
  | S fuel' =>
      if Js.strictEq a b then true
      else if Js.strictEq a JUndefined || Js.strictEq b JUndefined
              || Js.strictEq a JNull || Js.strictEq b JNull then false
      else if Js.typeofObject a && Js.typeofObject b then
        if Js.instanceofDate a && Js.instanceofDate b then
          Js.numEq (Js.getTime a) (Js.getTime b)
        else if Js.isArray a && Js.isArray b then
          Nat.eqb (length (Js.elements a)) (length (Js.elements b))
          && Js.every (fun item index => isEqual_fuel fuel' item (Js.at_index b index))
                      (Js.elements a)
        else if negb (Js.isArray a) && negb (Js.isArray b) then
          let aKeys := Js.sort (Js.keys a) in
          let bKeys := Js.sort (Js.keys a) in
          isEqual_fuel fuel' (JArr aKeysRef (map JStr aKeys)) (JArr bKeysRef (map JStr bKeys))
          && forallb (fun key => isEqual_fuel fuel' (Js.get a key) (Js.get b key)) aKeys
        else false
      else false
  end.

(** The number of nested calls [isEqual a _] can make: one for a primitive,
    two for a date (whose empty key list is compared when the other side is
    a plain object), one more than its deepest element for an array, and for
    an object one more than its deepest value and at least three (the key
    arrays and the strings in them). *)
Fixpoint height (v : JsValue) : nat :=
  match v with
  | JDate _ _ => 2
  | JArr _ xs => S (fold_right (fun x m => Nat.max (height x) m) 0 xs)
  | JObj _ ps => S (fold_right (fun p m => Nat.max (height (snd p)) m) 2 ps)
  | _ => 1
  end.

Definition isEqual (a b : JsValue) : bool :=
  isEqual_fuel (height a) a b.

(** ** flatten, isUniqueWith *)

(** [arr.push(x)]. *)
Definition push {T} (arr : list T) (x : T) : list T := arr ++ [x].

(** The two nested [for ... of] loops, each a left fold over its array,
    pushing onto [combined]. *)
Definition flatten {T} (results : list (list T)) : list T :=
  fold_left (fun combined result => fold_left push result combined) results [].

(** The loop over [array]; [items.some(prev => compare(prev, item))] is
    [existsb]. *)
Definition isUniqueWith {T} (compare : T -> T -> bool) (array : list T) : list T :=
  fold_left
    (fun items item =>
       if negb (existsb (fun prev => compare prev item) items)
       then push items item
       else items)
    array [].

(** ** Errors and options *)

(** An entry of the error list: [{ code, name, param }]. *)
Module Err.
Record t := make { code : string; name : string; param : JsValue }.
End Err.
Abbreviation ValidationError := Err.t.

Definition NoErrors : list ValidationError := [].

(** [HasError(code, name, param)]; a call that leaves [param] out binds it
    to [undefined]. *)
Definition HasError (code name : string) (param : JsValue) : list ValidationError :=
  [ {| Err.code := code; Err.name := name; Err.param := param |} ].

(** Modelled from the spec: the declaration of [ValidateOptions] (types.ts)
    is missing.  The spec gives it a [name] (the dotted path so far), the
    ordered [validators], [refs] and [root]; [rest] holds any further own
    property, in [Object.keys] order.  A validator is a function of the
    schema, the value and the options, and the options hold validators, so
    the record is parametrised by the type that names the validators. *)
Module Opt.
Record t (Validator : Type) := make {
  name : string;
  validators : list Validator;
  refs : JsValue;
  root : JsValue;
  rest : list (string * JsValue)
}.
Arguments make {Validator}.
Arguments name {Validator}.
Arguments validators {Validator}.
Arguments refs {Validator}.
Arguments root {Validator}.
Arguments rest {Validator}.
End Opt.
Abbreviation ValidateOptions := Opt.t.

(** [schema && typeof schema === 'object']. *)
Definition isJsonSchema (schema : JsValue) : bool :=
  Js.truthy schema && Js.typeofObject schema.

(** [value && typeof value === 'object' && !Array.isArray(value)]. *)
Definition isObject (value : JsValue) : bool :=
  Js.truthy value && Js.typeofObject value && negb (Js.isArray value).

(** ** childOptions *)

(** The first argument of [childOptions] is a [string | number]. *)
Inductive Key :=
| KStr (s : string)
| KNum (n : JsNumber).

(** What a template literal makes of a key. *)
Definition keyToString (k : Key) : string :=
  match k with
  | KStr s => s
  | KNum n => Js.numToString n
  end.

(** The properties of the object literal
    [{ ...options, name: `${options.name}.${name}` }]: every own property
    of [options], then [name] overwritten. *)
Definition childOptions {Validator} (name : Key) (options : ValidateOptions Validator)
  : ValidateOptions Validator :=
  {| Opt.name := Opt.name options ++ "." ++ keyToString name;
     Opt.validators := Opt.validators options;
     Opt.refs := Opt.refs options;
     Opt.root := Opt.root options;
     Opt.rest := Opt.rest options |}.

(** The heap of options objects, and the call itself: [options] is a
    reference, the literal allocates a new object and the reference to it is
    returned.  A reference that is not live cannot be passed. *)
Definition childOptions_call {Validator} (name : Key) (options : loc)
    (heap : gmap loc (ValidateOptions Validator))
  : option (loc * gmap loc (ValidateOptions Validator)) :=
  match heap !! options with
  | Some o =>
      let fresh_ref := fresh (dom heap) in
      Some (fresh_ref, <[fresh_ref := childOptions name o]> heap)
  | None => None
  end.

(** ** validateSchema *)

Section Dispatcher.

(** The registered keyword validators: [call f] is the function [f]
    names, a pure function of the schema, the value and the options. *)
Context {Validator : Type}.
Variable call :
  Validator -> JsValue -> JsValue -> ValidateOptions Validator -> list ValidationError.

Definition validateSchema (schema value : JsValue) (options : ValidateOptions Validator)
  : list ValidationError :=
  if Js.strictEq schema (JBool true) then
    []
  else if Js.strictEq schema (JBool false) then
    [ {| Err.code := "false"; Err.name := Opt.name options; Err.param := JBool false |} ]
  else if Js.truthy schema then
    flatten (map (fun validator => call validator schema value options)
                 (Opt.validators options))
  else
    [].

End Dispatcher.

(** Modelled from the spec: the keyword validators are not under src/.  The
    spec (4.1) gives each validator a keyword of its own and says of it: "a
    keyword validator that finds its keyword absent from the schema returns
    no errors (a no-op)".  [keyword f] is the keyword of [f], read from the
    schema as [schema[keyword]]; it is absent when that read gives
    [undefined]. *)
Definition noOpWhenAbsent {Validator}
    (call : Validator -> JsValue -> JsValue -> ValidateOptions Validator
            -> list ValidationError)
    (keyword : Validator -> string) (f : Validator) : Prop :=
  forall schema value options,
    Js.get schema (keyword f) = JUndefined -> call f schema value options = [].

(** The same function when a validator may read and write state of its own
    (a cache, a counter, a module-level variable): [Store] is that state, a
    call takes the store it finds and returns the store it leaves, and
    [Array.prototype.map] calls the validators from left to right. *)
Section StatefulDispatcher.

Context {Store Validator : Type}.
Variable callSt :
  Validator -> JsValue -> JsValue -> ValidateOptions Validator ->
  Store -> list ValidationError * Store.

Fixpoint mapSt {A B} (f : A -> Store -> B * Store) (xs : list A) (st : Store)
  : list B * Store :=
  match xs with
  | [] => ([], st)
  | x :: xs' =>
      let (y, st1) := f x st in
      let (ys, st2) := mapSt f xs' st1 in
      (y :: ys, st2)
  end.

Definition validateSchemaSt (schema value : JsValue)
    (options : ValidateOptions Validator) (st : Store)
  : list ValidationError * Store :=
  if Js.strictEq schema (JBool true) then
    ([], st)
  else if Js.strictEq schema (JBool false) then
    ([ {| Err.code := "false"; Err.name := Opt.name options; Err.param := JBool false |} ],
     st)
  else if Js.truthy schema then
    let (results, st') :=
      mapSt (fun validator => callSt validator schema value options)
            (Opt.validators options) st in
    (flatten results, st')
  else
    ([], st).

(** A validator is pure when a call leaves the store as it found it and
    its errors do not depend on the store. *)
Definition pureValidator (f : Validator) : Prop :=
  forall schema value options st,
    snd (callSt f schema value options st) = st
    /\ forall st', fst (callSt f schema value options st')
                   = fst (callSt f schema value options st).

End StatefulDispatcher.

(** ** Sample validators

    The keyword validators of the package are not part of this module; the
    dispatcher takes whatever list the options carry.  These two stand for
    them where a statement is run on a concrete input: [Present k] reports
    the keyword [k] when the schema has it, [Reject] reports every value. *)
Inductive SampleValidator :=
| Present (keyword : string)
| Reject.

Definition sampleCall (f : SampleValidator) (schema value : JsValue)
    (options : ValidateOptions SampleValidator) : list ValidationError :=
  match f with
  | Present keyword =>
      if Js.strictEq (Js.get schema keyword) JUndefined then NoErrors
      else HasError keyword (Opt.name options) (Js.get schema keyword)
  | Reject => HasError "reject" (Opt.name options) JUndefined
  end.

(** The keyword each sample validator looks for; [Reject] looks for none and
    reports whatever the schema holds, which the contract of the validators
    rules out. *)
Definition sampleKeyword (f : SampleValidator) : string :=
  match f with
  | Present keyword => keyword
  | Reject => "reject"
  end.

(** Top-level options: the path starts as ["value"]. *)
Definition sampleOptions {Validator} (validators : list Validator)
  : ValidateOptions Validator :=
  {| Opt.name := "value"; Opt.validators := validators;
     Opt.refs := JObj 1 []; Opt.root := JObj 2 []; Opt.rest := [] |}.

(** A validator with state of its own: it counts its calls in the store and
    reports from the second call on. *)
Definition countingCall (f : unit) (schema value : JsValue)
    (options : ValidateOptions unit) (calls : nat) : list ValidationError * nat :=
  (if Nat.eqb calls 0 then NoErrors else HasError "again" (Opt.name options) JUndefined,
   S calls).

(** ** isUniqueWith, as the specification words it *)

(** Scan [xs] from the left and keep an element exactly when no element kept
    before it ([kept], then the ones kept on the way) compares equal to it. *)
Fixpoint keepUnmatched {T} (compare : T -> T -> bool) (kept xs : list T) : list T :=
  match xs with
  | [] => []
  | x :: xs' =>
      if existsb (fun prev => compare prev x) kept
      then keepUnmatched compare kept xs'
      else x :: keepUnmatched compare (kept ++ [x]) xs'
  end.

(** No element of [l] compares equal to a later one. *)
Definition unmatched {T} (compare : T -> T -> bool) (l : list T) : Prop :=
  forall i j y z, i < j -> l !! i = Some y -> l !! j = Some z -> compare y z = false.

(** ** parseContentType (packages/laminar/src/request.ts) *)

(** Strings here are sequences of code units below 256, which is what the
    HTTP parser hands over for a header value; [trim] and [toLowerCase] are
    given for those code units. *)
Module Text.

Definition code (c : ascii) : N := N_of_ascii c.

(** The white space and line terminators [String.prototype.trim] strips:
    tab, line feed, vertical tab, form feed, carriage return, space and the
    no-break space. *)
Definition isWhiteSpace (c : ascii) : bool :=
  (N.leb 9 (code c) && N.leb (code c) 13) || N.eqb (code c) 32 || N.eqb (code c) 160.

(** The code units [toLowerCase] changes: [A-Z], and the capital letters of
    Latin-1 (192 to 222 without the multiplication sign 215). *)
Definition isUpper (c : ascii) : bool :=
  (N.leb 65 (code c) && N.leb (code c) 90)
  || (N.leb 192 (code c) && N.leb (code c) 214)
  || (N.leb 216 (code c) && N.leb (code c) 222).

Definition lowerChar (c : ascii) : ascii :=
  if isUpper c then ascii_of_N (code c + 32) else c.

Fixpoint toLowerCase (s : string) : string :=
  match s with
  | EmptyString => EmptyString
  | String c s' => String (lowerChar c) (toLowerCase s')
  end.

Fixpoint trimStart (s : string) : string :=
  match s with
  | EmptyString => EmptyString
  | String c s' => if isWhiteSpace c then trimStart s' else s
  end.

Fixpoint trimEnd (s : string) : string :=
  match s with
  | EmptyString => EmptyString
  | String c s' =>
      match trimEnd s' with
      | EmptyString => if isWhiteSpace c then EmptyString else String c EmptyString
      | t => String c t
      end
  end.

(** [s.trim()]. *)
Definition trim (s : string) : string := trimEnd (trimStart s).

(** [s.substr(1)]. *)
Definition substr1 (s : string) : string :=
  match s with
  | EmptyString => EmptyString
  | String _ s' => s'
  end.

(** The longest prefix of [s] whose characters are all in [cls], and what
    follows it. *)
Fixpoint span (cls : ascii -> bool) (s : string) : string * string :=
  match s with
  | EmptyString => (EmptyString, EmptyString)
  | String c s' =>
      if cls c
      then let (pre, rest) := span cls s' in (String c pre, rest)
      else (EmptyString, s)
  end.

End Text.

(** The regular expressions the module writes: a character class (a
    literal is the class of one character), a class repeated with [+] or
    [*], a sequence, [(...)?], and a numbered capture group. *)
Inductive Regex :=
| Chars (cls : ascii -> bool)
| Plus (cls : ascii -> bool)
| Star (cls : ascii -> bool)
| Seq (r1 r2 : Regex)
| Optional (r : Regex)
| Group (index : nat) (r : Regex).

(** A backtracking matcher, as [RegExp.prototype.exec] runs one: quantifiers
    are greedy, an alternative is given up only when everything after it
    fails, and each way of matching is handed to the continuation [k] with
    the rest of the input and the captures so far. *)
Module Re.

(** [cls*] against [s]: take a character of the class and go on, and come
    back to stop here when that fails. *)
Fixpoint star {R} (cls : ascii -> bool) (s : string) (k : string -> option R) : option R :=
  match s with
  | String c s' =>
      if cls c then
        match star cls s' k with
        | Some r => Some r
        | None => k s
        end
      else k s
  | EmptyString => k s
  end.

(** What was read of [s] when [rest] is left. *)
Definition consumed (s rest : string) : string :=
  String.substring 0 (String.length s - String.length rest) s.

Fixpoint run (r : Regex) (s : string) (caps : gmap nat string)
    (k : string -> gmap nat string -> option (gmap nat string))
  : option (gmap nat string) :=
  match r with
  | Chars cls =>
      match s with
      | String c s' => if cls c then k s' caps else None
      | EmptyString => None
      end
  | Plus cls =>
      match s with
      | String c s' => if cls c then star cls s' (fun rest => k rest caps) else None
      | EmptyString => None
      end
  | Star cls => star cls s (fun rest => k rest caps)
  | Seq r1 r2 => run r1 s caps (fun rest caps' => run r2 rest caps' k)
  | Optional r' =>
      match run r' s caps k with
      | Some res => Some res
      | None => k s caps
      end
  | Group index r' =>
      run r' s caps (fun rest caps' => k rest (<[index := consumed s rest]> caps'))
  end.

(** [r.exec(value)] for an expression that starts with [^] and has no
    flags: the match is tried at the start of [value] only, and it need not
    reach the end.  The result maps the index of each group that took part
    to its text. *)
Definition exec (r : Regex) (value : string) : option (gmap nat string) :=
  run r value ∅ (fun _ caps => Some caps).

(** The class of one character, and its complement. *)
Definition only (c : ascii) : ascii -> bool := Ascii.eqb c.
Definition except (c : ascii) : ascii -> bool := fun x => negb (Ascii.eqb c x).

(** [.]: anything but a line terminator. *)
Definition dot (c : ascii) : bool :=
  negb (N.eqb (N_of_ascii c) 10 || N.eqb (N_of_ascii c) 13).

End Re.

(** The expression [CONTENT_TYPE] of the source, group by group:
    [^], group 1 [[^/]+], a [/], group 2 [[^+;]+], optional group 3
    (a [+], then [[^;]+]), optional group 4 (a [;], then any run of [.]). *)
Definition CONTENT_TYPE : Regex :=
  Seq (Group 1 (Plus (Re.except "/")))
 (Seq (Chars (Re.only "/"))
 (Seq (Group 2 (Plus (fun c => Re.except "+" c && Re.except ";" c)))
 (Seq (Optional (Group 3 (Seq (Chars (Re.only "+")) (Plus (Re.except ";")))))
      (Optional (Group 4 (Seq (Chars (Re.only ";")) (Star Re.dot))))))).

(** What a call can come to: [null], a string, or a [TypeError] (which
    [type.trim()] would raise if the group were [undefined]). *)
Inductive Outcome :=
| Null
| Returns (s : string)
| Throws.

(** [suffix ? ... : ...] on a capture: [undefined] and the empty string are
    falsy. *)
Definition captured (group : option string) : bool :=
  match group with
  | Some s => negb (String.eqb s "")
  | None => false
  end.

Definition parseContentType (value : string) : Outcome :=
  match Re.exec CONTENT_TYPE value with
  | None => Null
  | Some parts =>
      match parts !! 1, parts !! 2 with
      | Some type, Some subtype =>
          let suffix := parts !! 3 in
          Returns
            (Text.toLowerCase
               (Text.trim type ++ "/"
                ++ (if captured suffix
                    then Text.trim (Text.substr1 (default "" suffix))
                    else Text.trim subtype)))
      | _, _ => Throws
      end
  end.

(** A [+] and the text after it up to the next [;], when [s] starts with a
    [+] and that text is not empty. *)
Definition suffixAt (s : string) : option string :=
  match s with
  | String c afterPlus =>
      if Re.only "+" c then
        match fst (Text.span (Re.except ";") afterPlus) with
        | EmptyString => None
        | suffix => Some (String c suffix)
        end
      else None
  | EmptyString => None
  end.

(** The parts of a content type, read from the left without a regular
    expression: the type is the text before the first [/] and is not empty;
    the subtype is the text after that [/] up to the first [+] or [;] and is
    not empty; the suffix is the text after a [+] that follows the subtype,
    up to the next [;], when there is any. *)
Definition contentTypeParts (value : string) : option (string * string * option string) :=
  let (type, rest) := Text.span (Re.except "/") value in
  match type, rest with
  | String _ _, String _ afterSlash =>
      let (subtype, rest') :=
        Text.span (fun c => Re.except "+" c && Re.except ";" c) afterSlash in
      match subtype with
      | EmptyString => None
      | String _ _ => Some (type, subtype, Text.substr1 <$> suffixAt rest')
      end
  | _, _ => None
  end.

(** ** Notions used to state further properties *)

(** A value with every address forgotten: two values with the same [strip]
    hold the same data, whatever allocations carry it (a deep copy, a value
    parsed twice). *)
Fixpoint strip (v : JsValue) : JsValue :=
  match v with
  | JDate _ t => JDate 0 t
  | JArr _ xs => JArr 0 (map strip xs)
  | JObj _ ps => JObj 0 (map (fun p => (fst p, strip (snd p))) ps)
  | _ => v
  end.

(** No [NaN] anywhere in the value, as a number or as the time of a date. *)
Fixpoint nanFree (v : JsValue) : bool :=
  match v with
  | JNum NaN => false
  | JDate _ NaN => false
  | JArr _ xs => forallb nanFree xs
  | JObj _ ps => forallb (fun p => nanFree (snd p)) ps
  | _ => true
  end.

(** The options after descending through the keys [path], one
    [childOptions] per key, as the recursive validators do. *)
Definition descend {Validator} (path : list Key) (options : ValidateOptions Validator)
  : ValidateOptions Validator :=
  fold_left (fun o key => childOptions key o) path options.

(** * Properties *)

(** ** isEqual: enough fuel *)

Lemma height_pos v : 1 <= height v.
Proof. destruct v; simpl; lia. Qed.

Lemma height_element x xs :
  In x xs -> height x <= fold_right (fun x m => Nat.max (height x) m) 0 xs.
Proof.
  induction xs as [|y xs IH]; simpl; [tauto|].
  intros [->|Hin]; [lia|]. specialize (IH Hin). lia.
Qed.

Lemma height_elements a x : In x (Js.elements a) -> height x < height a.
Proof.
  destruct a; simpl; try tauto.
  intros Hin. apply height_element in Hin. lia.
Qed.

Lemma height_lookup_prop key ps :
  height (Js.lookup_prop key ps)
  <= fold_right (fun p m => Nat.max (height (snd p)) m) 2 ps.
Proof.
  induction ps as [|[k v] ps IH]; simpl; [lia|].
  destruct (String.eqb k key); lia.
Qed.

Lemma height_get a key : Js.typeofObject a = true -> Js.strictEq a JNull = false ->
  Js.isArray a = false -> height (Js.get a key) < height a.
Proof.
  destruct a; simpl; try discriminate; try lia.
  intros _ _ _. pose proof (height_lookup_prop key props). lia.
Qed.

Lemma height_keys_array r a : Js.typeofObject a = true -> Js.strictEq a JNull = false ->
  Js.isArray a = false ->
  height (JArr r (map JStr (Js.sort (Js.keys a)))) < height a.
Proof.
  assert (Hstr : forall ks, fold_right (fun x m => Nat.max (height x) m) 0 (map JStr ks) <= 1).
  { induction ks as [|k ks IH]; simpl; lia. }
  destruct a; simpl; try discriminate; try lia.
  intros _ _ _. specialize (Hstr (Js.sort (map fst props))).
  assert (2 <= fold_right (fun p m => Nat.max (height (snd p)) m) 2 props).
  { clear. induction props; simpl; lia. }
  lia.
Qed.

Lemma every_from_ext_in {A} (f g : A -> nat -> bool) xs start :
  (forall x i, In x xs -> f x i = g x i) ->
  Js.every_from start f xs = Js.every_from start g xs.
Proof.
  revert start. induction xs as [|x xs IH]; intros start Hfg; simpl; [reflexivity|].
  rewrite (Hfg x start) by (left; reflexivity).
  rewrite IH; [reflexivity|]. intros y i Hy. apply Hfg. right; exact Hy.
Qed.

Lemma forallb_ext_in {A} (f g : A -> bool) xs :
  (forall x, In x xs -> f x = g x) -> forallb f xs = forallb g xs.
Proof.
  induction xs as [|x xs IH]; intros Hfg; simpl; [reflexivity|].
  rewrite (Hfg x) by (left; reflexivity).
  rewrite IH; [reflexivity|]. intros y Hy. apply Hfg. right; exact Hy.
Qed.

(** Any two amounts of fuel that reach the height of [a] give the same
    answer. *)
Lemma isEqual_fuel_irrelevant n : forall m a b,
  height a <= n -> height a <= m -> isEqual_fuel n a b = isEqual_fuel m a b.
Proof.
  induction n as [|n IH]; intros m a b Hn Hm.
  { pose proof (height_pos a). lia. }
  destruct m as [|m]; [pose proof (height_pos a); lia|].
  cbn [isEqual_fuel].
  destruct (Js.strictEq a b); [reflexivity|].
  destruct (Js.strictEq a JUndefined || Js.strictEq b JUndefined
            || Js.strictEq a JNull || Js.strictEq b JNull) eqn:Hnull; [reflexivity|].
  apply orb_false_elim in Hnull as [Hnull _].
  apply orb_false_elim in Hnull as [_ Hnull].
  destruct (Js.typeofObject a && Js.typeofObject b) eqn:Hobj; [|reflexivity].
  apply andb_prop in Hobj as [Hobj _].
  destruct (Js.instanceofDate a && Js.instanceofDate b); [reflexivity|].
  destruct (Js.isArray a && Js.isArray b).
  { f_equal. apply every_from_ext_in. intros x i Hx.
    apply height_elements in Hx. apply IH; lia. }
  destruct (negb (Js.isArray a) && negb (Js.isArray b)) eqn:Hplain; [|reflexivity].
  apply andb_prop in Hplain as [Hplain _]. apply negb_true_iff in Hplain.
  cbv zeta. f_equal.
  - pose proof (height_keys_array aKeysRef a Hobj Hnull Hplain). apply IH; lia.
  - apply forallb_ext_in. intros key _.
    pose proof (height_get a key Hobj Hnull Hplain). apply IH; lia.
Qed.

Lemma isEqual_fuel_enough n a b : height a <= n -> isEqual_fuel n a b = isEqual a b.
Proof. intros Hn. unfold isEqual. apply isEqual_fuel_irrelevant; lia. Qed.

(** The body of [isEqual] in the source, with the recursive calls as they
    are written there. *)
Lemma isEqual_unfold a b :
  isEqual a b =
    if Js.strictEq a b then true
    else if Js.strictEq a JUndefined || Js.strictEq b JUndefined
            || Js.strictEq a JNull || Js.strictEq b JNull then false
    else if Js.typeofObject a && Js.typeofObject b then
      if Js.instanceofDate a && Js.instanceofDate b then
        Js.numEq (Js.getTime a) (Js.getTime b)
      else if Js.isArray a && Js.isArray b then
        Nat.eqb (length (Js.elements a)) (length (Js.elements b))
        && Js.every (fun item index => isEqual item (Js.at_index b index)) (Js.elements a)
      else if negb (Js.isArray a) && negb (Js.isArray b) then
        let aKeys := Js.sort (Js.keys a) in
        let bKeys := Js.sort (Js.keys a) in
        isEqual (JArr aKeysRef (map JStr aKeys)) (JArr bKeysRef (map JStr bKeys))
        && forallb (fun key => isEqual (Js.get a key) (Js.get b key)) aKeys
      else false
    else false.
Proof.
  unfold isEqual at 1.
  destruct (height a) as [|n] eqn:Hh; [pose proof (height_pos a); lia|].
  cbn [isEqual_fuel].
  destruct (Js.strictEq a b); [reflexivity|].
  destruct (Js.strictEq a JUndefined || Js.strictEq b JUndefined
            || Js.strictEq a JNull || Js.strictEq b JNull) eqn:Hnull; [reflexivity|].
  apply orb_false_elim in Hnull as [Hnull _].
  apply orb_false_elim in Hnull as [_ Hnull].
  destruct (Js.typeofObject a && Js.typeofObject b) eqn:Hobj; [|reflexivity].
  apply andb_prop in Hobj as [Hobj _].
  destruct (Js.instanceofDate a && Js.instanceofDate b); [reflexivity|].
  destruct (Js.isArray a && Js.isArray b).
  { f_equal. apply every_from_ext_in. intros x i Hx.
    apply height_elements in Hx. apply isEqual_fuel_enough; lia. }
  destruct (negb (Js.isArray a) && negb (Js.isArray b)) eqn:Hplain; [|reflexivity].
  apply andb_prop in Hplain as [Hplain _]. apply negb_true_iff in Hplain.
  cbv zeta. f_equal.
  - pose proof (height_keys_array aKeysRef a Hobj Hnull Hplain).
    apply isEqual_fuel_enough; lia.
  - apply forallb_ext_in. intros key _.
    pose proof (height_get a key Hobj Hnull Hplain). apply isEqual_fuel_enough; lia.
Qed.

(** ** isEqual on objects *)

Lemma insert_sorted_In k s l : In k (Js.insert_sorted s l) <-> k = s \/ In k l.
Proof.
  induction l as [|t l IH]; simpl; [intuition congruence|].
  destruct (String.leb s t); simpl; [intuition congruence|].
  rewrite IH. intuition congruence.
Qed.

Lemma sort_In k l : In k (Js.sort l) <-> In k l.
Proof.
  induction l as [|s l IH]; simpl; [tauto|].
  rewrite insert_sorted_In, IH. intuition congruence.
Qed.

Lemma isEqual_string s : isEqual (JStr s) (JStr s) = true.
Proof. rewrite isEqual_unfold. simpl. rewrite String.eqb_refl. reflexivity. Qed.

Lemma every_key_equal ks : forall pre,
  Js.every_from (length pre)
    (fun item index => isEqual item (nth index (pre ++ map JStr ks) JUndefined))
    (map JStr ks) = true.
Proof.
  induction ks as [|k ks IH]; intros pre; simpl; [reflexivity|].
  rewrite app_nth2 by lia. rewrite Nat.sub_diag. simpl.
  rewrite isEqual_string. simpl.
  specialize (IH (pre ++ [JStr k])).
  rewrite length_app, Nat.add_comm in IH. simpl in IH.
  rewrite <- app_assoc in IH. exact IH.
Qed.

(** The comparison of the two key arrays always succeeds: both are the
    sorted keys of [a]. *)
Lemma isEqual_key_arrays ks :
  isEqual (JArr aKeysRef (map JStr ks)) (JArr bKeysRef (map JStr ks)) = true.
Proof.
  rewrite isEqual_unfold. simpl. rewrite Nat.eqb_refl. simpl.
  apply (every_key_equal ks []).
Qed.

Lemma truthy_not_nullish v :
  Js.truthy v = true -> Js.strictEq v JUndefined = false /\ Js.strictEq v JNull = false.
Proof. destruct v; simpl; try discriminate; auto. Qed.

Lemma strictEq_nullish_r a v : Js.truthy v = true ->
  Js.strictEq a JUndefined = false -> Js.strictEq a JNull = false ->
  Js.strictEq v JUndefined || Js.strictEq a JUndefined
  || Js.strictEq v JNull || Js.strictEq a JNull = false.
Proof.
  intros Hv Ha1 Ha2. destruct (truthy_not_nullish v Hv) as [-> ->].
  rewrite Ha1, Ha2. reflexivity.
Qed.

(** What [isEqual] computes on two values that pass [isObject] and are not
    both dates: only the keys of [a] are looked at. *)
Lemma isEqual_isObject a b :
  isObject a = true -> isObject b = true ->
  Js.instanceofDate a && Js.instanceofDate b = false ->
  isEqual a b =
    Js.strictEq a b
    || forallb (fun key => isEqual (Js.get a key) (Js.get b key)) (Js.sort (Js.keys a)).
Proof.
  unfold isObject. intros Ha Hb Hdate.
  apply andb_prop in Ha as [Ha Harr]. apply andb_prop in Ha as [Hta Hoa].
  apply andb_prop in Hb as [Hb Hbrr]. apply andb_prop in Hb as [Htb Hob].
  rewrite isEqual_unfold.
  destruct (Js.strictEq a b); [reflexivity|].
  destruct (truthy_not_nullish b Htb) as [Hb1 Hb2].
  rewrite (strictEq_nullish_r b a Hta Hb1 Hb2).
  rewrite Hoa, Hob, Hdate, Harr, Hbrr.
  apply negb_true_iff in Harr. rewrite Harr.
  cbv zeta. simpl. rewrite isEqual_key_arrays. reflexivity.
Qed.

(** C4.  Comparing two plain objects, [isEqual] takes both key lists from
    [a]: its answer is decided by the keys of [a] alone, whatever [b] binds
    besides.  So [{x: 1}] and [{x: 1, y: 2}], whose key sets differ, compare
    equal, and [isEqual] is not symmetric: the other way round the answer
    is [false]. *)
Theorem isEqual_keys_of_a_only :
  (forall la pa lb pb,
      isEqual (JObj la pa) (JObj lb pb) =
        Nat.eqb la lb
        || forallb (fun key => isEqual (Js.lookup_prop key pa) (Js.lookup_prop key pb))
                   (Js.sort (map fst pa)))
  /\ let a := JObj 10 [("x", JNum (Num 1))] in
     let b := JObj 11 [("x", JNum (Num 1)); ("y", JNum (Num 2))] in
     In "y" (Js.keys b) /\ ~ In "y" (Js.keys a)
     /\ isEqual a b = true
     /\ isEqual b a = false.
Proof.
  split.
  - intros la pa lb pb.
    rewrite (isEqual_isObject (JObj la pa) (JObj lb pb)); reflexivity.
  - cbv zeta. split; [|split; [|split]].
    + simpl. auto.
    + simpl. intros [H|[]]. discriminate H.
    + vm_compute. reflexivity.
    + vm_compute. reflexivity.
Qed.

(** C5, as the code has it.  Two values that pass [isObject] (not null, not
    arrays), are not both dates, and bind the same keys to values that are
    pairwise [isEqual], are [isEqual], in whatever order each lists its
    keys. *)
Theorem isEqual_same_bindings a b :
  isObject a = true -> isObject b = true ->
  Js.instanceofDate a && Js.instanceofDate b = false ->
  (forall key, In key (Js.keys a) <-> In key (Js.keys b)) ->
  (forall key, In key (Js.keys a) -> isEqual (Js.get a key) (Js.get b key) = true) ->
  isEqual a b = true.
Proof.
  intros Ha Hb Hdate _ Hvalues.
  rewrite (isEqual_isObject a b Ha Hb Hdate).
  apply orb_true_iff. right.
  apply forallb_forall. intros key Hkey.
  apply Hvalues. apply sort_In. exact Hkey.
Qed.

(** [isEqual({a: 1, b: 2}, {b: 2, a: 1})] is [true]. *)
Lemma isEqual_same_bindings_witness :
  let a := JObj 10 [("a", JNum (Num 1)); ("b", JNum (Num 2))] in
  let b := JObj 11 [("b", JNum (Num 2)); ("a", JNum (Num 1))] in
  isObject a = true /\ isObject b = true /\ isEqual a b = true.
Proof.
  cbv zeta. split; [reflexivity|]. split; [reflexivity|].
  apply isEqual_same_bindings.
  - reflexivity.
  - reflexivity.
  - reflexivity.
  - intros key. simpl. tauto.
  - intros key [<-|[<-|[]]]; vm_compute; reflexivity.
Defined.

(** C5, as stated, fails on dates: two [Date] objects are not null and not
    arrays, and both have the same (empty) set of own keys, yet they are
    compared by their timestamps. *)
Lemma isEqual_dates_counterexample :
  let a := JDate 10 (Num 0) in
  let b := JDate 11 (Num 1) in
  isObject a = true /\ isObject b = true
  /\ Js.keys a = Js.keys b
  /\ forallb (fun key => isEqual (Js.get a key) (Js.get b key)) (Js.keys a) = true
  /\ isEqual a b = false.
Proof. cbv zeta. repeat split; vm_compute; reflexivity. Qed.

(** ** isUniqueWith *)

Section UniqueWith.

Context {T : Type} (compare : T -> T -> bool).

Lemma existsb_false (f : T -> bool) l :
  existsb f l = false <-> forall x, In x l -> f x = false.
Proof.
  induction l as [|y l IH]; simpl; [tauto|].
  rewrite orb_false_iff, IH. split.
  - intros [Hy Hl] x [<-|Hx]; auto.
  - intros H. split; [apply H; auto|]. intros x Hx. apply H; auto.
Qed.

Lemma lookup_In (l : list T) i x : l !! i = Some x -> In x l.
Proof. intros H. apply list_elem_of_In. eapply list_elem_of_lookup_2. exact H. Qed.

(** The loop of [isUniqueWith], started with [items] already kept. *)
Lemma isUniqueWith_loop xs : forall items,
  fold_left
    (fun items item =>
       if negb (existsb (fun prev => compare prev item) items)
       then push items item else items)
    xs items
  = items ++ keepUnmatched compare items xs.
Proof.
  induction xs as [|x xs IH]; intros items; simpl.
  - rewrite app_nil_r. reflexivity.
  - destruct (existsb (fun prev => compare prev x) items); simpl.
    + apply IH.
    + rewrite IH. unfold push. rewrite <- app_assoc. reflexivity.
Qed.

Lemma isUniqueWith_keepUnmatched xs :
  isUniqueWith compare xs = keepUnmatched compare [] xs.
Proof. unfold isUniqueWith. rewrite isUniqueWith_loop. reflexivity. Qed.

Lemma keepUnmatched_sublist xs : forall kept,
  sublist (keepUnmatched compare kept xs) xs.
Proof.
  induction xs as [|x xs IH]; intros kept; simpl.
  - constructor.
  - destruct (existsb (fun prev => compare prev x) kept).
    + apply sublist_cons, IH.
    + apply sublist_skip, IH.
Qed.

Lemma unmatched_nil : unmatched compare [].
Proof. intros i j y z _ Hi. rewrite lookup_nil in Hi. discriminate. Qed.

Lemma unmatched_snoc kept x :
  unmatched compare kept ->
  existsb (fun prev => compare prev x) kept = false ->
  unmatched compare (kept ++ [x]).
Proof.
  intros Hkept Hx i j y z Hij Hi Hj.
  pose proof (lookup_lt_Some _ _ _ Hj) as Hlen.
  rewrite length_app in Hlen. simpl in Hlen.
  rewrite lookup_app_l in Hi by lia.
  destruct (decide (j < length kept)) as [Hlt|Hge].
  - rewrite lookup_app_l in Hj by lia. exact (Hkept i j y z Hij Hi Hj).
  - rewrite lookup_app_r in Hj by lia.
    replace (j - length kept) with 0 in Hj by lia.
    simpl in Hj. injection Hj as <-.
    apply (proj1 (existsb_false _ _) Hx). eapply lookup_In; eauto.
Qed.

Lemma unmatched_head kept y ys :
  unmatched compare (kept ++ y :: ys) ->
  existsb (fun prev => compare prev y) kept = false.
Proof.
  intros H. apply existsb_false. intros prev Hprev.
  apply list_elem_of_In, list_elem_of_lookup_1 in Hprev as [i Hi].
  pose proof (lookup_lt_Some _ _ _ Hi) as Hlt.
  apply (H i (length kept) prev y Hlt).
  - rewrite lookup_app_l by lia. exact Hi.
  - rewrite lookup_app_r by lia. rewrite Nat.sub_diag. reflexivity.
Qed.

(** Whatever is kept, no kept element compares equal to a later one. *)
Lemma keepUnmatched_unmatched xs : forall kept,
  unmatched compare kept ->
  unmatched compare (kept ++ keepUnmatched compare kept xs).
Proof.
  induction xs as [|x xs IH]; intros kept Hkept; simpl.
  - rewrite app_nil_r. exact Hkept.
  - destruct (existsb (fun prev => compare prev x) kept) eqn:Hx.
    + apply IH, Hkept.
    + replace (kept ++ x :: keepUnmatched compare (kept ++ [x]) xs)
        with ((kept ++ [x]) ++ keepUnmatched compare (kept ++ [x]) xs)
        by (rewrite <- app_assoc; reflexivity).
      apply IH, unmatched_snoc; assumption.
Qed.

(** An element that no earlier element of the input compares equal to is
    kept. *)
Lemma keepUnmatched_first xs : forall kept i x,
  xs !! i = Some x ->
  (forall y, In y kept -> compare y x = false) ->
  (forall j y, j < i -> xs !! j = Some y -> compare y x = false) ->
  In x (keepUnmatched compare kept xs).
Proof.
  induction xs as [|h xs IH]; intros kept i x Hi Hkept Hearlier.
  - rewrite lookup_nil in Hi. discriminate.
  - destruct i as [|i]; simpl in *.
    + injection Hi as ->.
      rewrite (proj2 (existsb_false _ _) Hkept). left; reflexivity.
    + assert (Hrest : forall j y, j < i -> xs !! j = Some y -> compare y x = false).
      { intros j y Hj Hy. apply (Hearlier (S j) y); [lia|exact Hy]. }
      destruct (existsb (fun prev => compare prev h) kept).
      * eapply IH; eauto.
      * right. eapply IH; eauto.
        intros y Hy. apply in_app_or in Hy as [Hy|[<-|[]]]; [auto|].
        apply (Hearlier 0 h); [lia|reflexivity].
Qed.

(** A list in which no element compares equal to a later one is kept
    whole. *)
Lemma keepUnmatched_fixed ys : forall kept,
  unmatched compare (kept ++ ys) -> keepUnmatched compare kept ys = ys.
Proof.
  induction ys as [|y ys IH]; intros kept H; simpl; [reflexivity|].
  rewrite (unmatched_head kept y ys H). f_equal.
  apply IH. rewrite <- app_assoc. exact H.
Qed.

(** C9.  [isUniqueWith compare xs] is [xs] scanned from the left, an
    element kept exactly when no element kept before it compares equal to
    it.  The result is a subsequence of [xs] (its elements occur in [xs],
    in the order they have there); an element of [xs] that no earlier
    element compares equal to (the first of its group) is retained; and
    an element of the result never compares equal to a later one. *)
Theorem isUniqueWith_spec (xs : list T) :
  isUniqueWith compare xs = keepUnmatched compare [] xs
  /\ sublist (isUniqueWith compare xs) xs
  /\ (forall y, In y (isUniqueWith compare xs) -> In y xs)
  /\ (forall i x, xs !! i = Some x ->
        (forall j y, j < i -> xs !! j = Some y -> compare y x = false) ->
        In x (isUniqueWith compare xs))
  /\ (forall i j y z, i < j ->
        isUniqueWith compare xs !! i = Some y ->
        isUniqueWith compare xs !! j = Some z ->
        compare y z = false).
Proof.
  rewrite isUniqueWith_keepUnmatched.
  split; [reflexivity|]. split; [apply keepUnmatched_sublist|].
  split; [|split].
  - intros y Hy. apply list_elem_of_In. apply list_elem_of_In in Hy.
    eapply elem_of_sublist; [exact Hy|apply keepUnmatched_sublist].
  - intros i x Hi Hearlier.
    apply (keepUnmatched_first xs [] i x Hi); [intros y []|exact Hearlier].
  - apply (keepUnmatched_unmatched xs [] unmatched_nil).
Qed.

(** C10.  Running [isUniqueWith] on its own result changes nothing,
    whatever the comparator (it need not be reflexive, symmetric or
    transitive). *)
Theorem isUniqueWith_idempotent (xs : list T) :
  isUniqueWith compare (isUniqueWith compare xs) = isUniqueWith compare xs.
Proof.
  rewrite (isUniqueWith_keepUnmatched (isUniqueWith compare xs)).
  apply keepUnmatched_fixed.
  rewrite isUniqueWith_keepUnmatched.
  apply (keepUnmatched_unmatched xs [] unmatched_nil).
Qed.

End UniqueWith.

(** A comparator that is neither reflexive nor symmetric: [prev < item].
    [2] and [5] follow a smaller kept element and are dropped. *)
Example isUniqueWith_less_than :
  isUniqueWith Nat.ltb [3; 1; 2; 5; 0] = [3; 1; 0]
  /\ isUniqueWith Nat.ltb [3; 1; 0] = [3; 1; 0].
Proof. split; reflexivity. Qed.

(** ** flatten *)

Lemma fold_left_push {T} (result : list T) : forall combined,
  fold_left push result combined = combined ++ result.
Proof.
  induction result as [|x result IH]; intros combined; simpl.
  - rewrite app_nil_r. reflexivity.
  - rewrite IH. unfold push. rewrite <- app_assoc. reflexivity.
Qed.

Lemma flatten_loop {T} (results : list (list T)) : forall combined,
  fold_left (fun combined result => fold_left push result combined) results combined
  = combined ++ concat results.
Proof.
  induction results as [|r results IH]; intros combined; simpl.
  - rewrite app_nil_r. reflexivity.
  - rewrite IH, fold_left_push, <- app_assoc. reflexivity.
Qed.

(** [flatten] is concatenation, in order. *)
Lemma flatten_concat {T} (results : list (list T)) : flatten results = concat results.
Proof. unfold flatten. rewrite flatten_loop. reflexivity. Qed.

(** ** validateSchema *)

Lemma strictEq_bool s b : Js.strictEq s (JBool b) = true <-> s = JBool b.
Proof.
  destruct s; simpl; try (split; [discriminate|intros H; discriminate H]).
  rewrite Bool.eqb_true_iff. split; congruence.
Qed.

Lemma strictEq_not_bool s b : s <> JBool b -> Js.strictEq s (JBool b) = false.
Proof.
  intros Hs. apply not_true_is_false. intros H. apply Hs, strictEq_bool, H.
Qed.

Section DispatcherFacts.

Context {Validator : Type}.
Variable call :
  Validator -> JsValue -> JsValue -> ValidateOptions Validator -> list ValidationError.

(** On a schema that is not a boolean, the dispatcher tests truthiness
    only. *)
Lemma validateSchema_not_bool schema value options :
  (forall b, schema <> JBool b) ->
  validateSchema call schema value options =
    if Js.truthy schema
    then concat (map (fun f => call f schema value options) (Opt.validators options))
    else [].
Proof.
  intros Hs. unfold validateSchema.
  rewrite !strictEq_not_bool by apply Hs.
  rewrite flatten_concat. reflexivity.
Qed.

(** C1.  On the schema [false] the dispatcher returns exactly one error,
    with code ["false"], the path of the options and param [false],
    whatever the value and the options; at the top level, where the path
    is ["value"], that error is named ["value"]. *)
Theorem validateSchema_false value :
  (forall options,
      validateSchema call (JBool false) value options
      = [ {| Err.code := "false"; Err.name := Opt.name options;
             Err.param := JBool false |} ])
  /\ (forall validators refs root rest,
      validateSchema call (JBool false) value
        {| Opt.name := "value"; Opt.validators := validators;
           Opt.refs := refs; Opt.root := root; Opt.rest := rest |}
      = [ {| Err.code := "false"; Err.name := "value"; Err.param := JBool false |} ]).
Proof.
  split; intros; unfold validateSchema; simpl; reflexivity.
Qed.

(** C2.  On the schema [true] the dispatcher returns no error, whatever
    the value and the options. *)
Theorem validateSchema_true value options :
  validateSchema call (JBool true) value options = [].
Proof. unfold validateSchema. simpl. reflexivity. Qed.

(** C3.  On a schema that is truthy and not a boolean, the dispatcher
    returns the error lists of the registered validators, each called on
    the schema, the value and the options, concatenated in registration
    order: nothing is skipped and nothing is reordered. *)
Theorem validateSchema_concat schema value options :
  (forall b, schema <> JBool b) ->
  Js.truthy schema = true ->
  validateSchema call schema value options
  = concat (map (fun f => call f schema value options) (Opt.validators options)).
Proof.
  intros Hs Ht. rewrite validateSchema_not_bool by exact Hs.
  rewrite Ht. reflexivity.
Qed.

(** On a schema that is falsy and not a boolean ([null], [undefined], [0],
    [NaN], the empty string) the dispatcher calls no validator and returns
    no error. *)
Lemma validateSchema_falsy schema value options :
  (forall b, schema <> JBool b) ->
  Js.truthy schema = false ->
  validateSchema call schema value options = [].
Proof.
  intros Hs Ht. rewrite validateSchema_not_bool by exact Hs.
  rewrite Ht. reflexivity.
Qed.

Variable keyword : Validator -> string.




End DispatcherFacts.

(** The schema [{ minLength: 5, type: "string" }] before two validators, the
    second of which finds its keyword first in the schema. *)
Lemma validateSchema_concat_witness :
  validateSchema sampleCall
    (JObj 3 [("minLength", JNum (Num 5)); ("type", JStr "string")])
    (JStr "ab")
    (sampleOptions [Present "type"; Present "enum"; Present "minLength"])
  = [ {| Err.code := "type"; Err.name := "value"; Err.param := JStr "string" |};
      {| Err.code := "minLength"; Err.name := "value"; Err.param := JNum (Num 5) |} ].
Proof.
  rewrite validateSchema_concat.
  - reflexivity.
  - intros b. discriminate.
  - reflexivity.
Defined.



(** A falsy argument needs no contract: no validator is reached. *)
Example validateSchema_falsy_samples :
  validateSchema sampleCall JNull (JStr "ab") (sampleOptions [Reject]) = []
  /\ validateSchema sampleCall JUndefined (JStr "ab") (sampleOptions [Reject]) = []
  /\ validateSchema sampleCall (JNum (Num 0)) (JStr "ab") (sampleOptions [Reject]) = [].
Proof. split; [|split]; apply validateSchema_falsy; (discriminate || reflexivity). Qed.

(** On a truthy argument the contract is what makes the claim true: the
    guard is [else if (schema)], so the validators are run on the number
    [1], and a validator that reports whatever the schema holds reports
    there, as it does on the empty schema. *)
Example validateSchema_contract_needed :
  ~ noOpWhenAbsent sampleCall sampleKeyword Reject
  /\ validateSchema sampleCall (JNum (Num 1)) (JStr "ab") (sampleOptions [Reject])
     = [ {| Err.code := "reject"; Err.name := "value"; Err.param := JUndefined |} ]
  /\ validateSchema sampleCall (JObj 3 []) (JStr "ab") (sampleOptions [Reject])
     = [ {| Err.code := "reject"; Err.name := "value"; Err.param := JUndefined |} ].
Proof.
  split; [|split; reflexivity].
  intros H. specialize (H (JObj 3 []) JNull (sampleOptions []) eq_refl). discriminate H.
Qed.

(** ** validateSchema with stateful validators *)

Section StatefulDispatcherFacts.

Context {Store Validator : Type}.
Variable callSt :
  Validator -> JsValue -> JsValue -> ValidateOptions Validator ->
  Store -> list ValidationError * Store.

(** Mapping pure validators over the list leaves the store alone and
    yields what each validator yields in any store [st0]. *)
Lemma mapSt_pure schema value options st0 validators :
  Forall (pureValidator callSt) validators ->
  forall st,
    mapSt (fun f => callSt f schema value options) validators st
    = (map (fun f => fst (callSt f schema value options st0)) validators, st).
Proof.
  induction 1 as [|f validators Hf _ IH]; intros st; simpl; [reflexivity|].
  destruct (Hf schema value options st) as [Hsnd _].
  destruct (Hf schema value options st0) as [_ Hfst].
  specialize (Hfst st).
  destruct (callSt f schema value options st) as [errors st1]. simpl in *.
  subst st1. rewrite IH, Hfst. reflexivity.
Qed.

(** With pure validators the stateful dispatcher is the pure one, and the
    store passes through untouched. *)
Lemma validateSchemaSt_pure schema value options st0 :
  Forall (pureValidator callSt) (Opt.validators options) ->
  forall st,
    validateSchemaSt callSt schema value options st
    = (validateSchema (fun f s v o => fst (callSt f s v o st0)) schema value options, st).
Proof.
  intros Hpure st. unfold validateSchemaSt, validateSchema.
  destruct (Js.strictEq schema (JBool true)); [reflexivity|].
  destruct (Js.strictEq schema (JBool false)); [reflexivity|].
  destruct (Js.truthy schema); [|reflexivity].
  rewrite (mapSt_pure schema value options st0 _ Hpure). reflexivity.
Qed.

(** C7.  When every registered validator is pure, a second call of the
    dispatcher on the same schema, value and options, made in the store
    the first call left, returns the same error list as the first; the
    calls leave the store as they found it, and the error list is the
    same from any store. *)
Theorem validateSchema_deterministic schema value options st :
  Forall (pureValidator callSt) (Opt.validators options) ->
  let first := validateSchemaSt callSt schema value options st in
  let second := validateSchemaSt callSt schema value options (snd first) in
  fst second = fst first
  /\ snd second = st
  /\ forall st', fst (validateSchemaSt callSt schema value options st') = fst first.
Proof.
  intros Hpure. cbv zeta.
  rewrite (validateSchemaSt_pure schema value options st Hpure st). simpl.
  rewrite (validateSchemaSt_pure schema value options st Hpure st). simpl.
  split; [reflexivity|]. split; [reflexivity|].
  intros st'. rewrite (validateSchemaSt_pure schema value options st Hpure st').
  reflexivity.
Qed.

End StatefulDispatcherFacts.

(** The sample validators, as stateful calls that ignore the store. *)
Lemma sampleCall_pure (f : SampleValidator) :
  pureValidator (Store := nat) (fun f s v o st => (sampleCall f s v o, st)) f.
Proof. intros schema value options st. simpl. split; reflexivity. Qed.

Lemma validateSchema_deterministic_witness :
  let callSt := fun f s v o (st : nat) => (sampleCall f s v o, st) in
  let schema := JObj 3 [("type", JStr "string")] in
  let options := sampleOptions [Present "type"; Reject] in
  let first := validateSchemaSt callSt schema JNull options 0 in
  let second := validateSchemaSt callSt schema JNull options (snd first) in
  fst second = fst first
  /\ snd second = 0
  /\ forall st', fst (validateSchemaSt callSt schema JNull options st') = fst first.
Proof.
  cbv zeta.
  apply (validateSchema_deterministic
           (fun f s v o (st : nat) => (sampleCall f s v o, st))).
  repeat constructor; apply sampleCall_pure.
Defined.

(** Purity is needed: a validator that counts its calls reports nothing the
    first time and an error the second. *)
Example validateSchema_counting_validator :
  let options := sampleOptions [tt] in
  let first := validateSchemaSt countingCall (JObj 3 []) JNull options 0 in
  let second := validateSchemaSt countingCall (JObj 3 []) JNull options (snd first) in
  fst first = []
  /\ fst second = [ {| Err.code := "again"; Err.name := "value"; Err.param := JUndefined |} ].
Proof. cbv zeta. split; reflexivity. Qed.

(** ** childOptions *)

(** C8.  A call of [childOptions] on a live options object allocates a new
    object: its [name] is the old name, a dot and the key as a string, its
    other properties are those of the old object, and the heap is otherwise
    as before, the old object included. *)
Theorem childOptions_frame {Validator} (key : Key) (options : loc)
    (heap : gmap loc (ValidateOptions Validator)) (o : ValidateOptions Validator) :
  heap !! options = Some o ->
  exists child heap',
    childOptions_call key options heap = Some (child, heap')
    /\ (exists o', heap' !! child = Some o'
          /\ Opt.name o' = (Opt.name o ++ "." ++ keyToString key)%string
          /\ Opt.validators o' = Opt.validators o
          /\ Opt.refs o' = Opt.refs o
          /\ Opt.root o' = Opt.root o
          /\ Opt.rest o' = Opt.rest o)
    /\ heap !! child = None
    /\ heap' !! options = Some o
    /\ forall l, l <> child -> heap' !! l = heap !! l.
Proof.
  intros Hlive. unfold childOptions_call. rewrite Hlive.
  set (child := fresh (dom heap)).
  assert (Hfresh : heap !! child = None).
  { apply not_elem_of_dom. apply is_fresh. }
  exists child, (<[child := childOptions key o]> heap).
  split; [reflexivity|]. split; [|split; [exact Hfresh|split]].
  - exists (childOptions key o). rewrite lookup_insert_eq. repeat split.
  - rewrite lookup_insert_ne; [exact Hlive|]. intros ->. congruence.
  - intros l Hl. apply lookup_insert_ne. congruence.
Qed.

(** The element [0] of the array at [value.items]. *)
Lemma childOptions_frame_witness :
  let o := {| Opt.name := "value.items"; Opt.validators := [Reject];
              Opt.refs := JObj 1 []; Opt.root := JObj 2 [];
              Opt.rest := [("strict", JBool true)] |} in
  let heap : gmap loc (ValidateOptions SampleValidator) := {[ 7 := o ]} in
  exists child heap',
    childOptions_call (KNum (Num 0)) 7 heap = Some (child, heap')
    /\ (exists o', heap' !! child = Some o'
          /\ Opt.name o' = "value.items.0"
          /\ Opt.validators o' = [Reject]
          /\ Opt.refs o' = JObj 1 []
          /\ Opt.root o' = JObj 2 []
          /\ Opt.rest o' = [("strict", JBool true)])
    /\ heap !! child = None
    /\ heap' !! 7 = Some o
    /\ forall l, l <> child -> heap' !! l = heap !! l.
Proof.
  intros o heap.
  exact (childOptions_frame (KNum (Num 0)) 7 heap o (lookup_singleton_eq 7 o)).
Defined.

(** A string key is appended as it is. *)
Example childOptions_string_key :
  Opt.name (childOptions (KStr "age") (sampleOptions [Reject])) = "value.age".
Proof. reflexivity. Qed.

(** * Further properties of the helpers *)

(** ** isJsonSchema, isObject *)

(** X1.  [isJsonSchema] holds exactly of dates, arrays and plain objects, and
    [isObject] exactly of those that are not arrays; [null], whose [typeof]
    is ['object'], passes neither. *)
Theorem isJsonSchema_isObject_shape v :
  (isJsonSchema v = true <-> exists l, Js.refOf v = Some l)
  /\ isObject v = isJsonSchema v && negb (Js.isArray v)
  /\ (Js.typeofObject JNull = true /\ isJsonSchema JNull = false /\ isObject JNull = false).
Proof.
  split; [|split; [reflexivity|repeat split]].
  destruct v as [| |b|[|z]|s|l t|l xs|l ps]; unfold isJsonSchema; simpl;
    try (split; [discriminate|intros [l0 H]; discriminate H]);
    try (split; [eauto|reflexivity]).
  - rewrite andb_false_r. split; [discriminate|intros [l0 H]; discriminate H].
  - rewrite andb_false_r. split; [discriminate|intros [l0 H]; discriminate H].
  - rewrite andb_false_r. split; [discriminate|intros [l0 H]; discriminate H].
Qed.

(** ** isEqual: primitives, identity, arrays *)

(** X2.  When one side is a primitive ([undefined], [null], a boolean, a number
    or a string), [isEqual] is [===]: no coercion, and [NaN] equals
    nothing. *)
Theorem isEqual_primitive a b :
  Js.refOf a = None \/ Js.refOf b = None ->
  isEqual a b = Js.strictEq a b.
Proof.
  intros Hprim. rewrite isEqual_unfold.
  destruct (Js.strictEq a b) eqn:Heq; [reflexivity|].
  destruct a, b; simpl in *; try reflexivity;
    destruct Hprim as [H|H]; discriminate H.
Qed.

Lemma isEqual_primitive_witness :
  isEqual (JStr "1") (JNum (Num 1)) = false
  /\ isEqual (JNum NaN) (JNum NaN) = false
  /\ isEqual JNull JUndefined = false
  /\ isEqual (JNum (Num 0)) (JBool false) = false.
Proof.
  split; [|split; [|split]];
    (rewrite isEqual_primitive; [reflexivity|left; reflexivity]).
Defined.

Lemma strictEq_refl a : a <> JNum NaN -> Js.strictEq a a = true.
Proof.
  destruct a as [| |b|[|z]|s|l t|l xs|l ps]; simpl; intros Ha;
    try reflexivity; try apply Nat.eqb_refl.
  - destruct b; reflexivity.
  - congruence.
  - apply Z.eqb_refl.
  - apply String.eqb_refl.
Qed.

Lemma isEqual_strictEq a b : Js.strictEq a b = true -> isEqual a b = true.
Proof. intros H. rewrite isEqual_unfold, H. reflexivity. Qed.

(** X3.  A value is [isEqual] to itself (the same allocation, for an object),
    with one exception: [NaN]. *)
Theorem isEqual_self a : isEqual a a = true <-> a <> JNum NaN.
Proof.
  split.
  - intros H ->. vm_compute in H. discriminate H.
  - intros Ha. apply isEqual_strictEq, strictEq_refl, Ha.
Qed.

Lemma isEqual_arrays la xs lb ys :
  isEqual (JArr la xs) (JArr lb ys) =
    Nat.eqb la lb
    || (Nat.eqb (length xs) (length ys)
        && Js.every (fun item index => isEqual item (nth index ys JUndefined)) xs).
Proof. rewrite isEqual_unfold. simpl. destruct (Nat.eqb la lb); reflexivity. Qed.

Lemma every_from_Forall2 (f : JsValue -> JsValue -> bool) xs : forall ys pre,
  length xs = length ys ->
  Js.every_from (length pre) (fun item index => f item (nth index (pre ++ ys) JUndefined)) xs
    = true
  <-> Forall2 (fun x y => f x y = true) xs ys.
Proof.
  induction xs as [|x xs IH]; intros [|y ys] pre Hlen; simpl in Hlen; try discriminate.
  - simpl. split; [constructor|reflexivity].
  - simpl. rewrite app_nth2 by lia. rewrite Nat.sub_diag. simpl.
    rewrite andb_true_iff.
    specialize (IH ys (pre ++ [y])).
    rewrite length_app, Nat.add_comm, <- app_assoc in IH. simpl in IH.
    rewrite IH by lia. split.
    + intros [Hx Hrest]. constructor; assumption.
    + intros H. inversion H; subst. split; assumption.
Qed.

(** X4.  Two arrays that are different allocations are [isEqual] exactly when
    they have the same length and their elements are pairwise [isEqual], in
    order. *)
Theorem isEqual_arrays_elementwise la xs lb ys :
  la <> lb ->
  isEqual (JArr la xs) (JArr lb ys) = true
  <-> Forall2 (fun x y => isEqual x y = true) xs ys.
Proof.
  intros Hne. rewrite isEqual_arrays.
  apply Nat.eqb_neq in Hne. rewrite Hne. simpl.
  rewrite andb_true_iff, Nat.eqb_eq. split.
  - intros [Hlen Hevery]. apply (every_from_Forall2 isEqual xs ys [] Hlen), Hevery.
  - intros H. pose proof (Forall2_length _ _ _ H) as Hlen.
    split; [exact Hlen|]. apply (every_from_Forall2 isEqual xs ys [] Hlen), H.
Qed.

Lemma isEqual_arrays_elementwise_witness :
  (isEqual (JArr 10 [JNum (Num 1); JStr "a"]) (JArr 11 [JNum (Num 1); JStr "a"]) = true
   <-> Forall2 (fun x y => isEqual x y = true)
         [JNum (Num 1); JStr "a"] [JNum (Num 1); JStr "a"])
  /\ (isEqual (JArr 10 [JNum (Num 1)]) (JArr 11 [JNum (Num 1); JUndefined]) = true
      <-> Forall2 (fun x y => isEqual x y = true) [JNum (Num 1)] [JNum (Num 1); JUndefined]).
Proof.
  split; apply isEqual_arrays_elementwise; discriminate.
Defined.

(** X5.  An array is never [isEqual] to a value that is not an array (and is
    another allocation), in either order. *)
Theorem isEqual_array_nonarray a b :
  Js.isArray a = true -> Js.isArray b = false -> Js.refOf a <> Js.refOf b ->
  isEqual a b = false /\ isEqual b a = false.
Proof.
  intros Ha Hb Href.
  destruct a as [| | | | | |la xs|]; try discriminate Ha.
  split; rewrite isEqual_unfold;
    destruct b as [| |x|n|s|lb t|lb ys|lb ps]; simpl in *; try reflexivity;
    try discriminate Hb;
    (destruct (Nat.eqb_spec la lb) as [->|Hne]; [congruence|]);
    try (destruct (Nat.eqb_spec lb la) as [->|Hne']; [congruence|]);
    reflexivity.
Qed.

Lemma isEqual_array_nonarray_witness :
  isEqual (JArr 10 []) (JObj 11 []) = false /\ isEqual (JObj 11 []) (JArr 10 []) = false.
Proof.
  apply isEqual_array_nonarray; [reflexivity|reflexivity|discriminate].
Defined.

(** X6.  A date, or an object with no keys, is [isEqual] to every non-null
    object that is not an array (two dates apart): with no key of [a] to
    check, the comparison succeeds. *)
Theorem isEqual_no_keys a b :
  isObject a = true -> isObject b = true ->
  Js.instanceofDate a && Js.instanceofDate b = false ->
  Js.keys a = [] ->
  isEqual a b = true.
Proof.
  intros Ha Hb Hdate Hkeys.
  rewrite (isEqual_isObject a b Ha Hb Hdate), Hkeys. simpl.
  apply orb_true_r.
Qed.

Lemma isEqual_no_keys_witness :
  isEqual (JDate 10 (Num 0)) (JObj 11 [("x", JNum (Num 1))]) = true
  /\ isEqual (JObj 12 []) (JDate 10 (Num 0)) = true
  /\ isEqual (JObj 12 []) (JObj 11 [("x", JNum (Num 1))]) = true.
Proof.
  split; [|split]; apply isEqual_no_keys; reflexivity.
Defined.

(** ** isEqual: the same data at other addresses *)

Lemma strip_lookup_prop key pa : forall pb,
  map (fun p => (fst p, strip (snd p))) pa = map (fun p => (fst p, strip (snd p))) pb ->
  strip (Js.lookup_prop key pa) = strip (Js.lookup_prop key pb).
Proof.
  induction pa as [|[k v] pa IH]; intros [|[k' v'] pb] Hmap; simpl in *;
    try discriminate; [reflexivity|].
  injection Hmap as -> Hv Hrest.
  destruct (String.eqb k' key); [exact Hv|apply IH, Hrest].
Qed.

Lemma nanFree_lookup_prop key ps :
  forallb (fun p => nanFree (snd p)) ps = true -> nanFree (Js.lookup_prop key ps) = true.
Proof.
  induction ps as [|[k v] ps IH]; simpl; [reflexivity|].
  intros H. apply andb_prop in H as [Hv Hps].
  destruct (String.eqb k key); [exact Hv|apply IH, Hps].
Qed.

Lemma isEqual_same_data_bounded n : forall a b,
  height a <= n -> nanFree a = true -> strip a = strip b -> isEqual a b = true.
Proof.
  induction n as [|n IH]; intros a b Hn Hnan Hstrip.
  { pose proof (height_pos a). lia. }
  destruct a as [| |x|[|z]|s|la t|la xs|la ps].
  - destruct b; try discriminate Hstrip. reflexivity.
  - destruct b; try discriminate Hstrip. reflexivity.
  - destruct b; try discriminate Hstrip. simpl in Hstrip. rewrite <- Hstrip.
    apply isEqual_strictEq, strictEq_refl. discriminate.
  - discriminate Hnan.
  - destruct b; try discriminate Hstrip. simpl in Hstrip. rewrite <- Hstrip.
    apply isEqual_strictEq, strictEq_refl. discriminate.
  - destruct b; try discriminate Hstrip. simpl in Hstrip. rewrite <- Hstrip.
    apply isEqual_strictEq, strictEq_refl. discriminate.
  - destruct b as [| | | | |lb t'| |]; simpl in Hstrip; try discriminate Hstrip.
    injection Hstrip as <-.
    rewrite isEqual_unfold. simpl.
    destruct t as [|z]; [discriminate Hnan|]. simpl.
    rewrite Z.eqb_refl. destruct (Nat.eqb la lb); reflexivity.
  - destruct b as [| | | | | |lb ys|]; simpl in Hstrip; try discriminate Hstrip.
    injection Hstrip as Hmap.
    rewrite isEqual_arrays. apply orb_true_iff. right.
    assert (Hall : Forall2 (fun x y => isEqual x y = true) xs ys).
    { simpl in Hn, Hnan. revert ys Hmap Hn Hnan.
      induction xs as [|x xs IHxs]; intros [|y ys] Hmap Hn Hnan;
        simpl in *; try discriminate; constructor.
      - injection Hmap as Hx _. apply andb_prop in Hnan as [Hx' _].
        apply IH; [lia|exact Hx'|exact Hx].
      - injection Hmap as _ Hrest. apply andb_prop in Hnan as [_ Hrest'].
        apply IHxs; [exact Hrest|lia|exact Hrest']. }
    pose proof (Forall2_length _ _ _ Hall) as Hlen.
    rewrite Hlen, Nat.eqb_refl. simpl.
    apply (every_from_Forall2 isEqual xs ys [] Hlen), Hall.
  - destruct b as [| | | | | | |lb pb]; simpl in Hstrip; try discriminate Hstrip.
    injection Hstrip as Hmap.
    rewrite (isEqual_isObject (JObj la ps) (JObj lb pb)) by reflexivity.
    apply orb_true_iff. right. apply forallb_forall. intros key _. simpl.
    apply IH.
    + pose proof (height_lookup_prop key ps). simpl in Hn. lia.
    + apply nanFree_lookup_prop, Hnan.
    + apply strip_lookup_prop, Hmap.
Qed.

(** X7.  Two values that hold the same data, at whatever addresses, are
    [isEqual], provided the data has no [NaN] in it: a deep copy of a
    JSON value is [isEqual] to the original. *)
Theorem isEqual_same_data a b :
  nanFree a = true -> strip a = strip b -> isEqual a b = true.
Proof. apply (isEqual_same_data_bounded (height a)). lia. Qed.

Lemma isEqual_same_data_witness :
  isEqual
    (JObj 10 [("id", JNum (Num 7)); ("tags", JArr 11 [JStr "a"; JNull])])
    (JObj 20 [("id", JNum (Num 7)); ("tags", JArr 21 [JStr "a"; JNull])]) = true.
Proof. apply isEqual_same_data; reflexivity. Defined.

(** [NaN] is what the premise excludes: a copy of [[NaN]] is not
    [isEqual] to it. *)
Example isEqual_copy_with_NaN :
  strip (JArr 10 [JNum NaN]) = strip (JArr 11 [JNum NaN])
  /\ isEqual (JArr 10 [JNum NaN]) (JArr 11 [JNum NaN]) = false.
Proof. split; reflexivity. Qed.

(** ** flatten *)

(** X8.  [flatten] keeps every element and invents none: its length is the sum
    of the lengths, an element is in the result exactly when it is in one
    of the lists, and flattening two batches of lists one after the other
    is flattening them together. *)
Theorem flatten_elements {T} (results more : list (list T)) :
  length (flatten results) = list_sum (map (@length T) results)
  /\ (forall x, In x (flatten results) <-> exists result, In result results /\ In x result)
  /\ flatten (results ++ more) = flatten results ++ flatten more.
Proof.
  rewrite !flatten_concat. split; [|split].
  - induction results as [|r results IH]; simpl; [reflexivity|].
    rewrite length_app, IH. reflexivity.
  - intros x. rewrite in_concat. split; intros [r Hr]; exists r; tauto.
  - apply concat_app.
Qed.

(** X9.  The result is empty exactly when every list is empty. *)
Theorem flatten_nil_iff {T} (results : list (list T)) :
  flatten results = [] <-> Forall (fun result => result = []) results.
Proof.
  rewrite flatten_concat. induction results as [|r results IH]; simpl.
  - split; [constructor|reflexivity].
  - split.
    + intros H. apply app_eq_nil in H as [-> H]. constructor; [reflexivity|apply IH, H].
    + intros H. inversion H; subst. simpl. apply IH. assumption.
Qed.

(** ** isUniqueWith: what is dropped, and when nothing is *)

Section UniqueWithMore.

Context {T : Type} (compare : T -> T -> bool).

Lemma keepUnmatched_covers xs : forall kept x,
  In x xs ->
  In x (keepUnmatched compare kept xs)
  \/ exists y, In y (kept ++ keepUnmatched compare kept xs) /\ compare y x = true.
Proof.
  induction xs as [|h xs IH]; intros kept x Hx; simpl in *; [tauto|].
  destruct (existsb (fun prev => compare prev h) kept) eqn:Hh.
  - destruct Hx as [<-|Hx]; [|apply IH, Hx].
    right. apply existsb_exists in Hh as [y [Hy Hc]].
    exists y. split; [apply in_or_app; left; exact Hy|exact Hc].
  - destruct Hx as [<-|Hx]; [left; left; reflexivity|].
    destruct (IH (kept ++ [h]) x Hx) as [Hin|[y [Hy Hc]]].
    + left. right. exact Hin.
    + right. exists y. split; [|exact Hc].
      rewrite <- app_assoc in Hy. exact Hy.
Qed.

(** X10.  Every element of the input is either kept or compares equal to an
    element that is kept: nothing is dropped without a kept match. *)
Theorem isUniqueWith_covers (xs : list T) x :
  In x xs ->
  In x (isUniqueWith compare xs)
  \/ exists y, In y (isUniqueWith compare xs) /\ compare y x = true.
Proof.
  intros Hx. rewrite isUniqueWith_keepUnmatched.
  apply (keepUnmatched_covers xs [] x Hx).
Qed.

Lemma sublist_same_length (l1 l2 : list T) :
  sublist l1 l2 -> length l1 = length l2 -> l1 = l2.
Proof.
  induction 1 as [|x l1 l2 Hsub IH|x l1 l2 Hsub IH]; simpl; intros Hlen.
  - reflexivity.
  - f_equal. apply IH. lia.
  - apply sublist_length in Hsub. lia.
Qed.

(** X11.  The result is as long as the input exactly when no element of the input
    compares equal to a later one, and the result is then the input
    itself: comparing the two lengths tests that all items are unique. *)
Theorem isUniqueWith_length_test (xs : list T) :
  (length (isUniqueWith compare xs) = length xs <-> unmatched compare xs)
  /\ (isUniqueWith compare xs = xs <-> unmatched compare xs).
Proof.
  assert (Hfix : unmatched compare xs -> isUniqueWith compare xs = xs).
  { intros H. rewrite isUniqueWith_keepUnmatched. apply keepUnmatched_fixed. exact H. }
  assert (Hkept : unmatched compare (isUniqueWith compare xs)).
  { rewrite isUniqueWith_keepUnmatched.
    apply (keepUnmatched_unmatched compare xs [] (unmatched_nil compare)). }
  split; split.
  - intros Hlen.
    assert (Heq : isUniqueWith compare xs = xs).
    { apply sublist_same_length; [|exact Hlen].
      rewrite isUniqueWith_keepUnmatched. apply keepUnmatched_sublist. }
    rewrite <- Heq. exact Hkept.
  - intros H. rewrite (Hfix H). reflexivity.
  - intros Heq. rewrite <- Heq. exact Hkept.
  - exact Hfix.
Qed.

(** X12.  With a comparator that decides equality, the result has no duplicates
    and the same elements as the input. *)
Theorem isUniqueWith_equality (xs : list T) :
  (forall x y, compare x y = true <-> x = y) ->
  NoDup (isUniqueWith compare xs)
  /\ forall x, In x (isUniqueWith compare xs) <-> In x xs.
Proof.
  intros Heq.
  assert (Hkept : unmatched compare (isUniqueWith compare xs)).
  { rewrite isUniqueWith_keepUnmatched.
    apply (keepUnmatched_unmatched compare xs [] (unmatched_nil compare)). }
  split.
  - apply NoDup_alt. intros i j x Hi Hj.
    assert (Hrefl : compare x x = true) by (apply Heq; reflexivity).
    destruct (Nat.lt_trichotomy i j) as [Hlt|[->|Hgt]]; [|reflexivity|].
    + rewrite (Hkept i j x x Hlt Hi Hj) in Hrefl. discriminate.
    + rewrite (Hkept j i x x Hgt Hj Hi) in Hrefl. discriminate.
  - intros x. split.
    + intros Hx. apply list_elem_of_In. apply list_elem_of_In in Hx.
      eapply elem_of_sublist; [exact Hx|].
      rewrite isUniqueWith_keepUnmatched. apply keepUnmatched_sublist.
    + intros Hx. rewrite isUniqueWith_keepUnmatched.
      destruct (keepUnmatched_covers xs [] x Hx) as [Hin|[y [Hy Hc]]]; [exact Hin|].
      apply Heq in Hc. subst y. exact Hy.
Qed.

(** X13.  Reading more input only appends to the result: what is kept of
    [xs ++ ys] is what is kept of [xs], then the elements of [ys] that no
    kept element compares equal to. *)
Theorem isUniqueWith_app (xs ys : list T) :
  isUniqueWith compare (xs ++ ys)
  = isUniqueWith compare xs ++ keepUnmatched compare (isUniqueWith compare xs) ys
  /\ isUniqueWith compare xs `prefix_of` isUniqueWith compare (xs ++ ys).
Proof.
  assert (Happ : isUniqueWith compare (xs ++ ys)
    = isUniqueWith compare xs ++ keepUnmatched compare (isUniqueWith compare xs) ys).
  { unfold isUniqueWith. rewrite fold_left_app.
    rewrite (isUniqueWith_loop compare ys). reflexivity. }
  split; [exact Happ|]. rewrite Happ. apply prefix_app_r. reflexivity.
Qed.

End UniqueWithMore.

Lemma isUniqueWith_covers_witness :
  In 2 (isUniqueWith Nat.ltb [3; 1; 2; 5; 0])
  \/ exists y, In y (isUniqueWith Nat.ltb [3; 1; 2; 5; 0]) /\ Nat.ltb y 2 = true.
Proof. apply isUniqueWith_covers. simpl. tauto. Defined.

Lemma isUniqueWith_equality_witness :
  NoDup (isUniqueWith Nat.eqb [1; 2; 1; 3; 2])
  /\ forall x, In x (isUniqueWith Nat.eqb [1; 2; 1; 3; 2]) <-> In x [1; 2; 1; 3; 2].
Proof. apply isUniqueWith_equality. intros x y. apply Nat.eqb_eq. Defined.

(** ** validateSchema: where errors come from *)

Section DispatcherMore.

Context {Validator : Type}.
Variable call :
  Validator -> JsValue -> JsValue -> ValidateOptions Validator -> list ValidationError.

(** X14.  The dispatcher makes one error of its own, the one for the schema
    [false]; every other error in its result was returned by a registered
    validator called on the same schema, value and options. *)
Theorem validateSchema_error_origin schema value options e :
  In e (validateSchema call schema value options) ->
  (schema = JBool false
   /\ e = {| Err.code := "false"; Err.name := Opt.name options; Err.param := JBool false |})
  \/ exists f, In f (Opt.validators options) /\ In e (call f schema value options).
Proof.
  unfold validateSchema.
  destruct (Js.strictEq schema (JBool true)); [intros []|].
  destruct (Js.strictEq schema (JBool false)) eqn:Hfalse.
  - apply strictEq_bool in Hfalse. intros [<-|[]]. left. split; [exact Hfalse|reflexivity].
  - destruct (Js.truthy schema); [|intros []].
    rewrite flatten_concat, in_concat. intros [errors [Herrors He]].
    apply in_map_iff in Herrors as [f [<- Hf]]. right. exists f. split; assumption.
Qed.

(** X15.  A schema object is valid exactly when every registered validator
    returns no error, and an error is reported exactly when some validator
    returns it. *)
Theorem validateSchema_valid_iff schema value options :
  (forall b, schema <> JBool b) ->
  Js.truthy schema = true ->
  (validateSchema call schema value options = []
   <-> Forall (fun f => call f schema value options = []) (Opt.validators options))
  /\ (forall e, In e (validateSchema call schema value options)
        <-> exists f, In f (Opt.validators options) /\ In e (call f schema value options)).
Proof.
  intros Hs Ht. rewrite (validateSchema_not_bool call schema value options Hs), Ht.
  split.
  - induction (Opt.validators options) as [|f fs IH]; simpl.
    + split; [constructor|reflexivity].
    + split.
      * intros H. apply app_eq_nil in H as [Hf Hfs].
        constructor; [exact Hf|apply IH, Hfs].
      * intros H. inversion H as [|? ? Hf Hfs]; subst.
        rewrite Hf. simpl. apply IH, Hfs.
  - intros e. rewrite in_concat. split.
    + intros [errors [Herrors He]].
      apply in_map_iff in Herrors as [f [<- Hf]]. exists f. split; assumption.
    + intros [f [Hf He]]. exists (call f schema value options).
      split; [apply (in_map (fun f => call f schema value options)), Hf|exact He].
Qed.

End DispatcherMore.

Lemma validateSchema_error_origin_witness :
  let schema := JObj 3 [("type", JStr "string")] in
  let e := {| Err.code := "type"; Err.name := "value"; Err.param := JStr "string" |} in
  (schema = JBool false
   /\ e = {| Err.code := "false"; Err.name := "value"; Err.param := JBool false |})
  \/ exists f, In f [Present "enum"; Present "type"]
               /\ In e (sampleCall f schema JNull (sampleOptions [Present "enum"; Present "type"])).
Proof.
  cbv zeta.
  apply (validateSchema_error_origin sampleCall
           (JObj 3 [("type", JStr "string")]) JNull
           (sampleOptions [Present "enum"; Present "type"])).
  simpl. left. reflexivity.
Defined.

Lemma validateSchema_valid_iff_witness :
  let schema := JObj 3 [("type", JStr "string")] in
  let options := sampleOptions [Present "enum"; Present "const"] in
  (validateSchema sampleCall schema JNull options = []
   <-> Forall (fun f => sampleCall f schema JNull options = []) (Opt.validators options))
  /\ (forall e, In e (validateSchema sampleCall schema JNull options)
        <-> exists f, In f (Opt.validators options) /\ In e (sampleCall f schema JNull options)).
Proof.
  cbv zeta. apply validateSchema_valid_iff; [discriminate|reflexivity].
Defined.

Section StatefulDispatcherMore.

Context {Store Validator : Type}.
Variable callSt :
  Validator -> JsValue -> JsValue -> ValidateOptions Validator ->
  Store -> list ValidationError * Store.

Lemma mapSt_store {A B} (f : A -> Store -> B * Store) xs : forall st,
  snd (mapSt f xs st) = fold_left (fun st x => snd (f x st)) xs st.
Proof.
  induction xs as [|x xs IH]; intros st; simpl; [reflexivity|].
  destruct (f x st) as [y st1] eqn:Hf. simpl.
  specialize (IH st1). destruct (mapSt f xs st1) as [ys st2]. simpl in *.
  exact IH.
Qed.

(** X16.  Whatever the validators do to the store: on [true], [false] and falsy
    schemas no validator is called, the store comes back as it was; on any
    other schema each registered validator is called once, from the first
    to the last, each in the store the one before it left. *)
Theorem validateSchemaSt_calls schema value options st :
  snd (validateSchemaSt callSt schema value options st) =
    if Js.strictEq schema (JBool true) || Js.strictEq schema (JBool false)
       || negb (Js.truthy schema)
    then st
    else fold_left (fun st f => snd (callSt f schema value options st))
                   (Opt.validators options) st.
Proof.
  unfold validateSchemaSt.
  destruct (Js.strictEq schema (JBool true)); [reflexivity|].
  destruct (Js.strictEq schema (JBool false)); [reflexivity|].
  destruct (Js.truthy schema); [|reflexivity]. simpl.
  rewrite <- (mapSt_store (fun f => callSt f schema value options)).
  destruct (mapSt _ _ st) as [results st']. reflexivity.
Qed.

End StatefulDispatcherMore.

(** ** childOptions: the dotted path *)

Lemma string_app_assoc (s t u : string) : ((s ++ t) ++ u = s ++ (t ++ u))%string.
Proof.
  induction s as [|c s IH]; [reflexivity|].
  change (String c ((s ++ t) ++ u) = String c (s ++ (t ++ u)))%string.
  rewrite IH. reflexivity.
Qed.

Lemma string_app_nil_r (s : string) : (s ++ "" = s)%string.
Proof.
  induction s as [|c s IH]; [reflexivity|].
  change (String c (s ++ "") = String c s)%string. rewrite IH. reflexivity.
Qed.

Lemma string_concat_cons (s : string) (l : list string) :
  (String.concat "" (s :: l) = s ++ String.concat "" l)%string.
Proof. destruct l; [symmetry; apply string_app_nil_r|reflexivity]. Qed.

Lemma descend_snoc {Validator} path key (options : ValidateOptions Validator) :
  descend (path ++ [key]) options = childOptions key (descend path options).
Proof. unfold descend. rewrite fold_left_app. reflexivity. Qed.

(** X17.  Descending through a list of keys appends [.key] to the path for each
    key, outermost first, and carries the validators, [refs], [root] and
    the other properties along unchanged; the error for a [false] schema met
    there is reported at that path. *)
Theorem descend_path {Validator}
    (call : Validator -> JsValue -> JsValue -> ValidateOptions Validator
            -> list ValidationError)
    (path : list Key) (options : ValidateOptions Validator) value :
  let name :=
    (Opt.name options ++ String.concat "" (map (fun key => "." ++ keyToString key) path))%string in
  descend path options
    = {| Opt.name := name;
         Opt.validators := Opt.validators options;
         Opt.refs := Opt.refs options;
         Opt.root := Opt.root options;
         Opt.rest := Opt.rest options |}
  /\ validateSchema call (JBool false) value (descend path options)
     = [ {| Err.code := "false"; Err.name := name; Err.param := JBool false |} ].
Proof.
  cbv zeta.
  assert (Hdescend : forall path (o : ValidateOptions Validator),
    descend path o
    = {| Opt.name :=
           (Opt.name o ++ String.concat "" (map (fun key => "." ++ keyToString key) path))%string;
         Opt.validators := Opt.validators o; Opt.refs := Opt.refs o;
         Opt.root := Opt.root o; Opt.rest := Opt.rest o |}).
  { clear. intros path. induction path as [|key path IH]; intros o.
    - destruct o as [n vs rf rt rs]. unfold descend.
      cbn [fold_left map String.concat].
      rewrite string_app_nil_r. reflexivity.
    - change (descend (key :: path) o) with (descend path (childOptions key o)).
      rewrite IH. destruct o as [n vs rf rt rs]. unfold childOptions.
      cbn -[String.append String.concat].
      rewrite string_concat_cons, !string_app_assoc. reflexivity. }
  split; [apply Hdescend|]. rewrite Hdescend. reflexivity.
Qed.

(** The path of the spec's glossary. *)
Example descend_items_0_age :
  Opt.name (descend [KStr "items"; KNum (Num 0); KStr "age"]
                    (sampleOptions (Validator := SampleValidator) []))
  = "value.items.0.age".
Proof. reflexivity. Qed.

(** X18.  Keys are written into the path as they are: a dot inside a key is not
    escaped, so the key ["a.b"] gives the options of the key ["b"] under the
    key ["a"], and a string key that spells a number gives the options of
    that index. *)
Theorem childOptions_keys_not_escaped {Validator} (options : ValidateOptions Validator)
    (s t : string) (n : JsNumber) :
  childOptions (KStr (s ++ "." ++ t)) options
    = childOptions (KStr t) (childOptions (KStr s) options)
  /\ childOptions (KStr (Js.numToString n)) options = childOptions (KNum n) options.
Proof.
  split; [|reflexivity].
  unfold childOptions. simpl. f_equal.
  rewrite !string_app_assoc. reflexivity.
Qed.

Lemma numToString_inj i j : Js.numToString (Num i) = Js.numToString (Num j) -> i = j.
Proof.
  assert (Hnonnil : forall z, Z.to_int z <> Decimal.Pos Decimal.Nil
                              /\ Z.to_int z <> Decimal.Neg Decimal.Nil).
  { intros [|p|p]; simpl; split; try discriminate;
      intros H; injection H as H; exact (Unsigned.to_uint_nonnil p H). }
  simpl. intros H. apply (f_equal NilZero.int_of_string) in H.
  destruct (Hnonnil i) as [Hi1 Hi2]. destruct (Hnonnil j) as [Hj1 Hj2].
  rewrite !NilZero.isi in H by assumption.
  injection H as H. apply to_int_inj, H.
Qed.

(** X19.  Under the same options two keys give the same path exactly when they
    are written the same; two array indices that differ give different
    paths. *)
Theorem childOptions_path_inj {Validator} (options : ValidateOptions Validator) :
  (forall k1 k2,
      Opt.name (childOptions k1 options) = Opt.name (childOptions k2 options)
      <-> keyToString k1 = keyToString k2)
  /\ (forall i j,
      Opt.name (childOptions (KNum (Num i)) options)
      = Opt.name (childOptions (KNum (Num j)) options) -> i = j).
Proof.
  assert (Hinj : forall k1 k2,
    Opt.name (childOptions k1 options) = Opt.name (childOptions k2 options)
    <-> keyToString k1 = keyToString k2).
  { intros k1 k2. simpl. split.
    - intros H. apply String.app_inj in H. apply (String.app_inj ".") in H. exact H.
    - intros ->. reflexivity. }
  split; [exact Hinj|].
  intros i j H. apply Hinj in H. apply numToString_inj, H.
Qed.

(** * parseContentType *)

Example parseContentType_samples :
  parseContentType "Application/JSON; charset=UTF-8" = Returns "application/json"
  /\ parseContentType "application/vnd.api+json" = Returns "application/json"
  /\ parseContentType " text / html ;q=1" = Returns "text/html"
  /\ parseContentType "a/b/c+d+e;f" = Returns "a/d+e"
  /\ parseContentType "text" = Null
  /\ parseContentType "/json" = Null
  /\ parseContentType "text/+xml" = Null.
Proof. repeat split; vm_compute; reflexivity. Qed.

(** ** The matcher on character classes *)

Lemma string_app_cons c (s t : string) : (String c s ++ t = String c (s ++ t))%string.
Proof. reflexivity. Qed.

Lemma span_app cls s : s = (fst (Text.span cls s) ++ snd (Text.span cls s))%string.
Proof.
  induction s as [|c s IH]; simpl; [reflexivity|].
  destruct (cls c); [|reflexivity].
  destruct (Text.span cls s) as [pre rest]. simpl in *.
  rewrite string_app_cons, <- IH. reflexivity.
Qed.

Lemma span_rest_head cls s d t : snd (Text.span cls s) = String d t -> cls d = false.
Proof.
  induction s as [|c s IH]; simpl; [discriminate|].
  destruct (cls c) eqn:Hc.
  - destruct (Text.span cls s) as [pre rest]. simpl in *. exact IH.
  - simpl. intros H. injection H as <- _. exact Hc.
Qed.

Lemma string_length_app (s t : string) :
  String.length (s ++ t) = String.length s + String.length t.
Proof.
  induction s as [|c s IH]; [reflexivity|].
  rewrite string_app_cons. simpl. rewrite IH. reflexivity.
Qed.

Lemma consumed_app (pre rest : string) : Re.consumed (pre ++ rest) rest = pre.
Proof.
  unfold Re.consumed. rewrite string_length_app.
  replace (String.length pre + String.length rest - String.length rest)
    with (String.length pre) by lia.
  induction pre as [|c pre IH].
  - change (EmptyString ++ rest)%string with rest. destruct rest; reflexivity.
  - rewrite string_app_cons. simpl. rewrite IH. reflexivity.
Qed.

(** Greedy: when the continuation accepts what follows the longest run, that
    is the match. *)
Lemma star_longest {R} cls s (k : string -> option R) r :
  k (snd (Text.span cls s)) = Some r -> Re.star cls s k = Some r.
Proof.
  induction s as [|c s IH]; simpl; [auto|].
  destruct (cls c); [|auto].
  destruct (Text.span cls s) as [pre rest]. simpl in *.
  intros H. rewrite (IH H). reflexivity.
Qed.

(** When the continuation refuses every input that starts with a character
    of the class, stopping short of the longest run never helps. *)
Lemma star_no_backtrack {R} cls s (k : string -> option R) :
  (forall c t, cls c = true -> k (String c t) = None) ->
  Re.star cls s k = k (snd (Text.span cls s)).
Proof.
  intros Hk. induction s as [|c s IH]; simpl; [reflexivity|].
  destruct (cls c) eqn:Hc; [|reflexivity].
  rewrite IH. destruct (Text.span cls s) as [pre rest]. simpl.
  rewrite (Hk c s Hc). destruct (k rest); reflexivity.
Qed.

(** ** CONTENT_TYPE, group by group *)

(** The optional group 4 always lets the match through and touches no other
    group. *)
Lemma run_parameters s caps :
  exists caps',
    Re.run (Optional (Group 4 (Seq (Chars (Re.only ";")) (Star Re.dot)))) s caps
           (fun _ c => Some c) = Some caps'
    /\ forall i, i <> 4 -> caps' !! i = caps !! i.
Proof.
  cbn [Re.run]. destruct s as [|c s]; [exists caps; split; [reflexivity|auto]|].
  destruct (Re.only ";" c); [|exists caps; split; [reflexivity|auto]].
  eexists. split.
  - erewrite star_longest; reflexivity.
  - intros i Hi. cbv beta. apply lookup_insert_ne. congruence.
Qed.

Lemma suffixAt_run c d s :
  Re.only "+" c = true -> Re.except ";" d = true ->
  suffixAt (String c (String d s))
  = Some (String c (String d (fst (Text.span (Re.except ";") s)))).
Proof.
  intros Hc Hd. unfold suffixAt. rewrite Hc. cbn [Text.span]. rewrite Hd.
  destruct (Text.span (Re.except ";") s). reflexivity.
Qed.

Lemma suffixAt_none c s :
  Re.only "+" c = false
  \/ s = EmptyString
  \/ (exists d t, s = String d t /\ Re.except ";" d = false) ->
  suffixAt (String c s) = None.
Proof.
  unfold suffixAt. intros [Hc|[->|[d [t [-> Hd]]]]].
  - rewrite Hc. reflexivity.
  - destruct (Re.only "+" c); reflexivity.
  - cbn [Text.span]. rewrite Hd. destruct (Re.only "+" c); reflexivity.
Qed.

Lemma run_suffix s caps :
  caps !! 3 = None ->
  exists caps',
    Re.run (Seq (Optional (Group 3 (Seq (Chars (Re.only "+")) (Plus (Re.except ";")))))
                (Optional (Group 4 (Seq (Chars (Re.only ";")) (Star Re.dot)))))
           s caps (fun _ c => Some c) = Some caps'
    /\ caps' !! 1 = caps !! 1 /\ caps' !! 2 = caps !! 2 /\ caps' !! 3 = suffixAt s.
Proof.
  intros Hnone.
  assert (Hskip : forall t, suffixAt t = None ->
    exists caps',
      Re.run (Optional (Group 4 (Seq (Chars (Re.only ";")) (Star Re.dot)))) t caps
             (fun _ c => Some c) = Some caps'
      /\ caps' !! 1 = caps !! 1 /\ caps' !! 2 = caps !! 2 /\ caps' !! 3 = suffixAt t).
  { intros t Ht. destruct (run_parameters t caps) as [caps' [Hrun Hsame]].
    exists caps'. split; [exact Hrun|].
    rewrite !Hsame by discriminate. rewrite Ht, Hnone. auto. }
  cbn [Re.run].
  destruct s as [|c s]; [apply (Hskip EmptyString); reflexivity|].
  destruct (Re.only "+" c) eqn:Hplus;
    [|apply (Hskip (String c s)), suffixAt_none; auto].
  destruct s as [|d s].
  { apply (Hskip (String c EmptyString)), suffixAt_none; auto. }
  destruct (Re.except ";" d) eqn:Hd.
  2:{ apply (Hskip (String c (String d s))), suffixAt_none.
      right; right. exists d, s. auto. }
  rewrite (suffixAt_run c d s Hplus Hd).
  pose proof (span_app (Re.except ";") s) as Hs.
  destruct (Text.span (Re.except ";") s) as [pre rest] eqn:Hspan. simpl in Hs.
  destruct (run_parameters rest
              (<[3 := Re.consumed (String c (String d s)) rest]> caps))
    as [caps' [Hrun Hsame]].
  exists caps'. split.
  - erewrite star_longest; [reflexivity|]. rewrite Hspan. exact Hrun.
  - rewrite !Hsame by discriminate.
    rewrite !lookup_insert_ne by discriminate. split; [reflexivity|split; [reflexivity|]].
    rewrite lookup_insert_eq. simpl. f_equal. rewrite Hs.
    apply (consumed_app (String c (String d pre)) rest).
Qed.

Lemma only_except c x : Re.except c x = true -> Re.only c x = false.
Proof. unfold Re.except, Re.only. apply negb_true_iff. Qed.

Lemma except_only c x : Re.except c x = false -> Re.only c x = true.
Proof. unfold Re.except, Re.only. apply negb_false_iff. Qed.

Lemma suffixAt_captured s :
  (if captured (suffixAt s)
   then Some (Text.substr1 (default EmptyString (suffixAt s)))
   else None)
  = (Text.substr1 <$> suffixAt s).
Proof.
  unfold suffixAt. destruct s as [|c s]; [reflexivity|].
  destruct (Re.only "+" c); [|reflexivity].
  destruct (fst (Text.span (Re.except ";") s)); reflexivity.
Qed.

(** What [exec] finds is what reading from the left finds. *)
Lemma exec_CONTENT_TYPE value :
  match contentTypeParts value with
  | None => Re.exec CONTENT_TYPE value = None
  | Some (type, subtype, suffix) =>
      exists parts,
        Re.exec CONTENT_TYPE value = Some parts
        /\ parts !! 1 = Some type
        /\ parts !! 2 = Some subtype
        /\ (if captured (parts !! 3)
            then Some (Text.substr1 (default EmptyString (parts !! 3)))
            else None) = suffix
  end.
Proof.
  unfold Re.exec, CONTENT_TYPE, contentTypeParts. cbn [Re.run].
  destruct value as [|c v]; [reflexivity|].
  cbn [Text.span].
  destruct (Re.except "/" c) eqn:Hc; [|reflexivity].
  rewrite star_no_backtrack.
  2:{ intros c' t Hc'. rewrite (only_except _ _ Hc'). reflexivity. }
  pose proof (span_app (Re.except "/") v) as Hv.
  pose proof (span_rest_head (Re.except "/") v) as Hhead.
  destruct (Text.span (Re.except "/") v) as [pre rest]. simpl in Hv, Hhead.
  cbn [snd].
  destruct rest as [|slash afterSlash]; [reflexivity|].
  rewrite (except_only _ _ (Hhead slash afterSlash eq_refl)).
  destruct afterSlash as [|d a]; [reflexivity|].
  cbn [Text.span].
  destruct (Re.except "+" d && Re.except ";" d) eqn:Hd; [|reflexivity].
  pose proof (span_app (fun c => Re.except "+" c && Re.except ";" c) a) as Ha.
  destruct (Text.span (fun c => Re.except "+" c && Re.except ";" c) a)
    as [sub rest'] eqn:Hspan. simpl in Ha.
  set (caps1 := <[1 := Re.consumed (String c v) (String slash (String d a))]> ∅).
  destruct (run_suffix rest'
              (<[2 := Re.consumed (String d a) rest']> caps1))
    as [parts [Hrun [H1 [H2 H3]]]].
  { rewrite lookup_insert_ne by discriminate. unfold caps1.
    rewrite lookup_insert_ne by discriminate. apply lookup_empty. }
  exists parts. split; [|split; [|split]].
  - erewrite star_longest; [reflexivity|]. rewrite Hspan. exact Hrun.
  - rewrite H1, lookup_insert_ne by discriminate. unfold caps1.
    rewrite lookup_insert_eq. f_equal. rewrite Hv.
    apply (consumed_app (String c pre) (String slash (String d a))).
  - rewrite H2, lookup_insert_eq. f_equal. rewrite Ha.
    apply (consumed_app (String d sub) rest').
  - rewrite H3. apply suffixAt_captured.
Qed.

Lemma parseContentType_read value :
  parseContentType value =
    match contentTypeParts value with
    | None => Null
    | Some (type, subtype, suffix) =>
        Returns (Text.toLowerCase
                   (Text.trim type ++ "/" ++ Text.trim (default subtype suffix)))
    end.
Proof.
  pose proof (exec_CONTENT_TYPE value) as Hexec. unfold parseContentType.
  destruct (contentTypeParts value) as [[[type subtype] suffix]|].
  - destruct Hexec as [parts [-> [-> [-> Hsuffix]]]]. cbv zeta.
    destruct (captured (parts !! 3)); subst suffix; reflexivity.
  - rewrite Hexec. reflexivity.
Qed.

(** X20.  The match never leaves group 1 or group 2 undefined, so [type.trim()]
    and [subtype.trim()] cannot throw; and the result is built from the
    parts read from the left: the type and, when there is a suffix, the
    suffix in place of the subtype, each trimmed, joined by [/] and put in
    lower case.  [null] is returned exactly when the value has no such
    parts. *)
Theorem parseContentType_parts value :
  parseContentType value <> Throws
  /\ parseContentType value =
       match contentTypeParts value with
       | None => Null
       | Some (type, subtype, suffix) =>
           Returns (Text.toLowerCase
                      (Text.trim type ++ "/" ++ Text.trim (default subtype suffix)))
       end.
Proof.
  split; [|apply parseContentType_read].
  rewrite parseContentType_read.
  destruct (contentTypeParts value) as [[[type subtype] suffix]|]; discriminate.
Qed.

(** ** Parameters and case *)

Lemma span_app_stop cls s c t :
  cls c = false ->
  Text.span cls (s ++ String c t)
  = (fst (Text.span cls s), (snd (Text.span cls s) ++ String c t)%string).
Proof.
  intros Hc. induction s as [|x s IH].
  - change (EmptyString ++ String c t)%string with (String c t).
    cbn [Text.span]. rewrite Hc. reflexivity.
  - rewrite string_app_cons. cbn [Text.span].
    destruct (cls x); [|reflexivity].
    rewrite IH. destruct (Text.span cls s). reflexivity.
Qed.

Lemma span_app_inside cls s t :
  snd (Text.span cls s) <> EmptyString ->
  Text.span cls (s ++ t)
  = (fst (Text.span cls s), (snd (Text.span cls s) ++ t)%string).
Proof.
  induction s as [|x s IH]; intros Hrest.
  - exfalso. apply Hrest. reflexivity.
  - rewrite string_app_cons. cbn [Text.span] in *.
    destruct (cls x); [|reflexivity].
    destruct (Text.span cls s) as [pre rest]. simpl in *.
    rewrite (IH Hrest). reflexivity.
Qed.

Lemma suffixAt_parameters s params : suffixAt (s ++ String ";" params) = suffixAt s.
Proof.
  destruct s as [|c s]; [reflexivity|].
  rewrite string_app_cons. unfold suffixAt.
  destruct (Re.only "+" c); [|reflexivity].
  rewrite span_app_stop by reflexivity. reflexivity.
Qed.

Lemma contentTypeParts_parameters value params parts :
  contentTypeParts value = Some parts ->
  contentTypeParts (value ++ String ";" params) = Some parts.
Proof.
  unfold contentTypeParts.
  destruct (Text.span (Re.except "/") value) as [type rest] eqn:Hspan.
  destruct type as [|t type]; [discriminate|].
  destruct rest as [|slash afterSlash]; [discriminate|].
  rewrite span_app_inside by (rewrite Hspan; discriminate).
  rewrite Hspan. cbn [fst snd]. rewrite string_app_cons.
  rewrite span_app_stop by reflexivity.
  destruct (Text.span (fun c => Re.except "+" c && Re.except ";" c) afterSlash)
    as [subtype rest']. cbn [fst snd].
  destruct subtype; [discriminate|].
  rewrite suffixAt_parameters. auto.
Qed.

(** X21.  Parameters are ignored: when a value has a content type, so has the
    value followed by [;] and anything, and it is the same one. *)
Theorem parseContentType_parameters value params r :
  parseContentType value = Returns r ->
  parseContentType (value ++ ";" ++ params) = Returns r.
Proof.
  rewrite !parseContentType_read.
  destruct (contentTypeParts value) as [parts|] eqn:Hparts; [|discriminate].
  change (";" ++ params)%string with (String ";" params).
  rewrite (contentTypeParts_parameters value params parts Hparts). auto.
Qed.

Lemma parseContentType_parameters_witness :
  parseContentType ("application/vnd.api+json" ++ ";" ++ " charset=utf-8; q=0.9")
  = Returns "application/json".
Proof. apply parseContentType_parameters. vm_compute. reflexivity. Defined.

(** Without a content type in the value, what follows a [;] is read as part
    of it. *)
Example parseContentType_parameter_with_slash :
  parseContentType "text" = Null
  /\ parseContentType ("text" ++ ";" ++ "a/b") = Returns "text;a/b".
Proof. split; vm_compute; reflexivity. Qed.

Lemma lowerChar_idempotent c : Text.lowerChar (Text.lowerChar c) = Text.lowerChar c.
Proof. destruct c as [[] [] [] [] [] [] [] []]; vm_compute; reflexivity. Qed.

Lemma lowerChar_classes c :
  Re.except "/" (Text.lowerChar c) = Re.except "/" c
  /\ Re.except "+" (Text.lowerChar c) = Re.except "+" c
  /\ Re.except ";" (Text.lowerChar c) = Re.except ";" c
  /\ Re.only "+" (Text.lowerChar c) = Re.only "+" c
  /\ Text.isWhiteSpace (Text.lowerChar c) = Text.isWhiteSpace c.
Proof. destruct c as [[] [] [] [] [] [] [] []]; vm_compute; repeat split. Qed.

Lemma toLowerCase_idempotent s : Text.toLowerCase (Text.toLowerCase s) = Text.toLowerCase s.
Proof.
  induction s as [|c s IH]; simpl; [reflexivity|].
  rewrite lowerChar_idempotent, IH. reflexivity.
Qed.

Lemma toLowerCase_app s t :
  Text.toLowerCase (s ++ t) = (Text.toLowerCase s ++ Text.toLowerCase t)%string.
Proof.
  induction s as [|c s IH]; [reflexivity|].
  rewrite string_app_cons. simpl. rewrite IH. reflexivity.
Qed.

Lemma span_toLowerCase cls s :
  (forall c, cls (Text.lowerChar c) = cls c) ->
  Text.span cls (Text.toLowerCase s)
  = (Text.toLowerCase (fst (Text.span cls s)), Text.toLowerCase (snd (Text.span cls s))).
Proof.
  intros Hcls. induction s as [|c s IH]; simpl; [reflexivity|].
  rewrite Hcls. destruct (cls c); [|reflexivity].
  rewrite IH. destruct (Text.span cls s). reflexivity.
Qed.

Lemma trimStart_toLowerCase s :
  Text.trimStart (Text.toLowerCase s) = Text.toLowerCase (Text.trimStart s).
Proof.
  induction s as [|c s IH]; simpl; [reflexivity|].
  destruct (lowerChar_classes c) as [_ [_ [_ [_ ->]]]].
  destruct (Text.isWhiteSpace c); [exact IH|reflexivity].
Qed.

Lemma trimEnd_toLowerCase s :
  Text.trimEnd (Text.toLowerCase s) = Text.toLowerCase (Text.trimEnd s).
Proof.
  induction s as [|c s IH]; simpl; [reflexivity|].
  rewrite IH. destruct (lowerChar_classes c) as [_ [_ [_ [_ ->]]]].
  destruct (Text.trimEnd s); simpl; [|reflexivity].
  destruct (Text.isWhiteSpace c); reflexivity.
Qed.

Lemma trim_toLowerCase s : Text.trim (Text.toLowerCase s) = Text.toLowerCase (Text.trim s).
Proof. unfold Text.trim. rewrite trimStart_toLowerCase, trimEnd_toLowerCase. reflexivity. Qed.

Lemma suffixAt_toLowerCase s :
  suffixAt (Text.toLowerCase s) = (Text.toLowerCase <$> suffixAt s).
Proof.
  destruct s as [|c s]; [reflexivity|]. unfold suffixAt. cbn [Text.toLowerCase].
  destruct (lowerChar_classes c) as [_ [_ [_ [-> _]]]].
  destruct (Re.only "+" c); [|reflexivity].
  rewrite span_toLowerCase by (intros x; apply lowerChar_classes).
  cbn [fst]. destruct (fst (Text.span (Re.except ";") s)); reflexivity.
Qed.

Lemma contentTypeParts_toLowerCase value :
  contentTypeParts (Text.toLowerCase value)
  = ((fun parts : string * string * option string =>
        (Text.toLowerCase parts.1.1, Text.toLowerCase parts.1.2,
         Text.toLowerCase <$> parts.2))
     <$> contentTypeParts value).
Proof.
  unfold contentTypeParts.
  rewrite span_toLowerCase by (intros x; apply lowerChar_classes).
  destruct (Text.span (Re.except "/") value) as [type rest].
  cbn [fst snd].
  destruct type as [|t type]; [reflexivity|].
  destruct rest as [|slash afterSlash]; [reflexivity|].
  cbn [Text.toLowerCase].
  rewrite span_toLowerCase.
  2:{ intros x. destruct (lowerChar_classes x) as [_ [-> [-> _]]]. reflexivity. }
  destruct (Text.span (fun c => Re.except "+" c && Re.except ";" c) afterSlash)
    as [subtype rest'].
  cbn [fst snd].
  destruct subtype as [|u subtype]; [reflexivity|].
  cbn [Text.toLowerCase]. rewrite suffixAt_toLowerCase.
  destruct (suffixAt rest') as [[|p suffix]|]; reflexivity.
Qed.

(** X22.  Case does not matter: a value and the value in lower case have the same
    content type, and what is returned is in lower case. *)
Theorem parseContentType_case value :
  parseContentType (Text.toLowerCase value) = parseContentType value
  /\ forall r, parseContentType value = Returns r -> Text.toLowerCase r = r.
Proof.
  rewrite !parseContentType_read, contentTypeParts_toLowerCase.
  destruct (contentTypeParts value) as [[[type subtype] suffix]|]; simpl.
  - split.
    + f_equal.
      replace (default (Text.toLowerCase subtype) (Text.toLowerCase <$> suffix))
        with (Text.toLowerCase (default subtype suffix))
        by (destruct suffix; reflexivity).
      rewrite !trim_toLowerCase, !toLowerCase_app, !toLowerCase_idempotent.
      reflexivity.
    + intros r H. injection H as <-. apply toLowerCase_idempotent.
  - split; [reflexivity|discriminate].
Qed.
